(** * Batch encoding and staggered dispatch (executePayments.ts)

    A shallow embedding of [src/executePayments.ts] and of the older variant
    of [generateTransactions] kept in [src/unnamed/part_001], followed by the
    properties of the wire encoder, the batch partitioner, the retrying
    sender and the staggered dispatcher.

    Conventions of the embedding.
    - A JavaScript [number] that holds an integer is a [Z]; the operators
      [&], [|] and [>>] first wrap their operand to a signed 32-bit integer
      ([ToInt32]), as ECMAScript prescribes.
    - A [Buffer]/[Uint8Array] is a [list Z] of bytes.  An indexed store
      outside the array is dropped, [set] outside the array throws.
    - A function that can throw or loop returns a [Run]: a value, a thrown
      error, or [NoReturn] when the loop did not finish within the fuel.
    - The parts of [@solana/web3.js] that the file calls but does not define
      (message compilation, signing) are the fields of the class [Web3];
      like the library's functions they return a value or throw. *)

From Stdlib Require Import ZArith Lia List.
From stdpp Require Import base decidable option numbers list strings pretty.

Local Open Scope Z_scope.

(** ** JavaScript values and effects *)

Module Js.

(** Thrown values.  [SendTransactionError] is web3.js's error class, the
    one the [catch] blocks test with [instanceof]; [Error] is the built-in
    class, [RangeError] what a typed array's [set] throws. *)
Inductive JsError : Type :=
  | SendTransactionError (msg : string)
  | Error (msg : string)
  | RangeError (msg : string).

#[global] Instance JsError_eq_dec : EqDecision JsError.
Proof. solve_decision. Defined.

Definition instanceof_SendTransactionError (err : JsError) : bool :=
  match err with
  | SendTransactionError _ => true
  | _ => false
  end.

(** The outcome of running a piece of code. *)
Inductive Run (A : Type) : Type :=
  | Ret (a : A)
  | Throw (e : JsError)
  | NoReturn.
Arguments Ret {A} a.
Arguments Throw {A} e.
Arguments NoReturn {A}.

#[global] Instance Run_ret : MRet Run := fun A a => Ret a.
#[global] Instance Run_bind : MBind Run := fun A B k m =>
  match m with
  | Ret a => k a
  | Throw e => Throw e
  | NoReturn => NoReturn
  end.

(** [ToInt32]: the signed 32-bit reading of an integer-valued number. *)
Definition ToInt32 (z : Z) : Z := (z + 2^31) mod 2^32 - 2^31.

(** [a & b], [a | b] and [a >> n] on numbers. *)
Definition band (a b : Z) : Z := Z.land (ToInt32 a) (ToInt32 b).
Definition bor (a b : Z) : Z := Z.lor (ToInt32 a) (ToInt32 b).
Definition sar (a n : Z) : Z := Z.shiftr (ToInt32 a) (n mod 32).

(** Byte buffers. *)
Abbreviation Buffer := (list Z) (only parsing).

(** [Buffer.alloc(size)]: [size] zero bytes. *)
Definition Buffer_alloc (size : Z) : Buffer := replicate (Z.to_nat size) 0.

(** [array[index] = v] on a [Uint8Array]: the value is stored modulo 256,
    a store outside the array is ignored. *)
Definition store (array : Buffer) (index v : Z) : Buffer :=
  if decide (0 <= index) then <[Z.to_nat index := v mod 256]> array else array.

(** [target.set(source, offset)]: copies [source] over [target] from
    [offset]; throws a [RangeError] when it does not fit. *)
Definition Buffer_set (target source : Buffer) (offset : Z) : Run Buffer :=
  if decide (0 <= offset /\ offset + Z.of_nat (length source) <= Z.of_nat (length target))
  then Ret (take (Z.to_nat offset) target ++ source
              ++ drop (Z.to_nat offset + length source) target)
  else Throw (RangeError "offset is out of bounds").

(** Numbers that are no integers: what [Math.ceil(a / b)] can also be. *)
Inductive JsNum : Type :=
  | Int (z : Z)
  | PosInf
  | NegInf
  | NaN.

(** [Math.ceil(a / b)] for integer-valued [a] and [b].  JavaScript divides
    in floating point; for the array lengths that occur (below 2^32) the
    rounded quotient has the same ceiling as the exact one, and a zero result
    is the same loop bound whatever its sign. *)
Definition Math_ceil_div (a b : Z) : JsNum :=
  if decide (b = 0) then
    (if decide (a = 0) then NaN else if decide (0 < a) then PosInf else NegInf)
  else Int (- ((- a) / b)).

End Js.
Export Js.

(** ** The wire encoder *)

(** [getSignatureCountLength(count)]. *)
Definition getSignatureCountLength (count : Z) : Z :=
  if decide (count < 0x80) then 1
  else if decide (count < 0x4000) then 2
  else 3.

(** The [for (;;)] loop of [encodeLength]; one unit of fuel per round.
    [rem_len] and [len] are the loop's variables. *)
Fixpoint encodeLength_loop (fuel : nat) (rem_len len : Z) (array : Buffer) (offset : Z)
  : Run (Buffer * Z) :=
  match fuel with
  | O => NoReturn
  | S fuel' =>
      let elem := band rem_len 0x7f in
      let rem_len := sar rem_len 7 in
      let elem := if decide (rem_len <> 0) then bor elem 0x80 else elem in
      let array := store array (offset + len) elem in
      let len := len + 1 in
      if decide (rem_len = 0) then Ret (array, len)
      else encodeLength_loop fuel' rem_len len array offset
  end.

(** Rounds after which the loop has returned if it ever does: a signed
    32-bit value that is not negative is used up by five shifts of seven
    bits, and a negative one never reaches zero (see
    [encodeLength_loop_enough] and [encodeLength_loop_negative]). *)
Definition encodeLength_rounds : nat := 5.

(** [encodeLength(count, array, offset)]: the array after the writes and
    the number of bytes written. *)
Definition encodeLength (count : Z) (array : Buffer) (offset : Z) : Run (Buffer * Z) :=
  encodeLength_loop encodeLength_rounds count 0 array offset.

(** ** Transactions and the part of web3.js the file relies on *)

Definition PublicKey : Type := string.
Definition Blockhash : Type := string.

Record Keypair : Type := mkKeypair {
  publicKey : PublicKey;
  secretKey : Buffer
}.

(** [SystemProgram.transfer({fromPubkey, toPubkey, lamports})]. *)
Record TransactionInstruction : Type := SystemProgram_transfer {
  fromPubkey : PublicKey;
  toPubkey : PublicKey;
  lamports : Z
}.

(** One entry of [tx.signatures]; [signature] is [null] until signed. *)
Record SignaturePubkeyPair : Type := mkSignaturePubkeyPair {
  signature : option Buffer;
  signer : PublicKey
}.

Record Transaction : Type := mkTransaction {
  instructions : list TransactionInstruction;
  recentBlockhash : option Blockhash;
  signatures : list SignaturePubkeyPair
}.

#[global] Instance TransactionInstruction_eq_dec : EqDecision TransactionInstruction.
Proof. solve_decision. Defined.

(** [new Transaction()] and [tx.add(instruction)]. *)
Definition new_Transaction : Transaction := mkTransaction [] None [].
Definition tx_add (tx : Transaction) (ix : TransactionInstruction) : Transaction :=
  mkTransaction (instructions tx ++ [ix]) (recentBlockhash tx) (signatures tx).
Definition set_recentBlockhash (tx : Transaction) (blockhash : Blockhash) : Transaction :=
  mkTransaction (instructions tx) (Some blockhash) (signatures tx).

(** What web3.js supplies.  [compileMessage_serialize tx] is
    [tx.compileMessage()] followed by [message.serialize()]: the bytes of
    the message, or the error one of the two throws (a transaction without
    recent blockhash or fee payer, a signature slot of an unknown signer, a
    blockhash that is no base-58 text, a message that outgrows its buffer).
    [nacl_sign message secretKey] is the ed25519 signature of a message,
    which is 64 bytes long when the signing returns; it throws on a secret
    key of the wrong size. *)
Class Web3 : Type := {
  compileMessage_serialize : Transaction -> Run Buffer;
  nacl_sign : Buffer -> Buffer -> Run Buffer;
  nacl_sign_length : forall message key signature,
    nacl_sign message key = Ret signature -> length signature = 64%nat
}.

(** [tx.sign(wallet)], for a transaction whose instructions ask for no
    signature but the wallet's, as those of [generateRawTransactions] do:
    the signature list becomes the one empty slot of the signer, the message
    is compiled and serialized, and the slot receives the signer's signature
    of these bytes.  Whatever the compilation or the signing throws is
    thrown by [sign]. *)
Definition tx_sign `{Web3} (tx : Transaction) (wallet : Keypair) : Run Transaction :=
  let tx := mkTransaction (instructions tx) (recentBlockhash tx)
              [mkSignaturePubkeyPair None (publicKey wallet)] in
  signData ← compileMessage_serialize tx;
  signature ← nacl_sign signData (secretKey wallet);
  Ret (mkTransaction (instructions tx) (recentBlockhash tx)
         [mkSignaturePubkeyPair (Some signature) (publicKey wallet)]).

(** The loop over [tx.signatures] of [customSerializeTransaction]: the
    buffer and offset after the last signature. *)
Fixpoint write_signatures (sigs : list SignaturePubkeyPair) (wireTransaction : Buffer)
    (offset : Z) : Run (Buffer * Z) :=
  match sigs with
  | [] => Ret (wireTransaction, offset)
  | sig :: rest =>
      match signature sig with
      | None => Throw (Error "Transaction must be fully signed before serialization")
      | Some bytes =>
          wireTransaction ← Buffer_set wireTransaction bytes offset;
          write_signatures rest wireTransaction (offset + 64)
      end
  end.

(** [customSerializeTransaction(tx)].  The message is compiled and
    serialized before anything else, so an error of web3.js there ends the
    call.  The size check of the original is commented out in the source and
    has no counterpart here. *)
Definition customSerializeTransaction `{Web3} (tx : Transaction) : Run Buffer :=
  serializedMessage ← compileMessage_serialize tx;
  let signatureCount := Z.of_nat (length (signatures tx)) in
  let signatureCountLength := getSignatureCountLength signatureCount in
  let serializedSignaturesLength := signatureCountLength + signatureCount * 64 in
  let transactionSize := serializedSignaturesLength + Z.of_nat (length serializedMessage) in
  let wireTransaction := Buffer_alloc transactionSize in
  let offset := 0 in
  '(wireTransaction, written) ← encodeLength signatureCount wireTransaction offset;
  let offset := offset + written in
  '(wireTransaction, offset) ← write_signatures (signatures tx) wireTransaction offset;
  Buffer_set wireTransaction serializedMessage offset.

(** ** Batching *)

(** [for (let i = lo; i < hi; i++) body]: the body runs for
    [lo, lo + 1, ...] below [hi], not at all when [hi <= lo]. *)
Definition for_loop {S : Type} (lo hi : Z) (body : Z -> S -> S) (s : S) : S :=
  foldl (fun s i => body i s) s (seqZ lo (hi - lo)).

(** The same loop with a body that can throw. *)
Definition for_loop_run {S : Type} (lo hi : Z) (body : Z -> S -> Run S) (s : S) : Run S :=
  foldl (fun r i => s ← r; body i s) (Ret s) (seqZ lo (hi - lo)).

(** [allInstructions[j]]: [undefined] outside the array. *)
Definition at_index {A : Type} (l : list A) (j : Z) : option A :=
  if decide (0 <= j) then l !! Z.to_nat j else None.

(** The first loop of both generators: [count] pushes of the same
    transfer. *)
Definition transfer_instructions (count : Z) (fromPubkey toPubkey : PublicKey)
    (lamports : Z) : list TransactionInstruction :=
  for_loop 0 count
    (fun _ allInstructions =>
       allInstructions ++ [SystemProgram_transfer fromPubkey toPubkey lamports]) [].

(** The inner loop: a new transaction with the instructions at
    [lowerIndex .. upperIndex - 1] that exist (an instruction object is
    truthy, [undefined] is not). *)
Definition fill_transaction (allInstructions : list TransactionInstruction)
    (lowerIndex upperIndex : Z) : Transaction :=
  for_loop lowerIndex upperIndex
    (fun j tx =>
       match at_index allInstructions j with
       | Some ix => tx_add tx ix
       | None => tx
       end) new_Transaction.

(** How often [for (let i = 0; i < numTransactions; i++)] runs: every
    comparison with [NaN] is false, and no integer reaches [Infinity]. *)
Definition loop_bound (numTransactions : JsNum) : option Z :=
  match numTransactions with
  | Int z => Some z
  | NaN | NegInf => Some 0
  | PosInf => None
  end.

(** The slicing loop of [generateTransactions] (lines 201-212, and lines
    30-41 of the older variant), on any instruction list. *)
Definition slice_transactions (allInstructions : list TransactionInstruction)
    (batchSize : Z) : Run (list Transaction) :=
  let numTransactions := Math_ceil_div (Z.of_nat (length allInstructions)) batchSize in
  match loop_bound numTransactions with
  | None => NoReturn
  | Some n =>
      Ret (for_loop 0 n
             (fun i paymentBatches =>
                let lowerIndex := i * batchSize in
                let upperIndex := (i + 1) * batchSize in
                paymentBatches ++ [fill_transaction allInstructions lowerIndex upperIndex])
             [])
  end.

(** [generateTransactions(batchSize, fundingWallet, destinationWallet)]. *)
Definition generateTransactions (batchSize : Z) (fundingWallet destinationWallet : PublicKey)
  : Run (list Transaction) :=
  let allInstructions :=
    transfer_instructions batchSize fundingWallet destinationWallet 10000 in
  slice_transactions allInstructions batchSize.

(** The variant of [src/unnamed/part_001]: five times as many transfers
    of 500000 lamports, the same slicing loop. *)
Module Part001.

Definition generateTransactions (batchSize : Z) (fundingWallet destinationWallet : PublicKey)
  : Run (list Transaction) :=
  let allInstructions :=
    transfer_instructions (batchSize * 5) fundingWallet destinationWallet 500000 in
  slice_transactions allInstructions batchSize.

End Part001.

(** ** The remote endpoint *)

(** The RPC calls a function made, in order. *)
Inductive RpcCall : Type :=
  | GetLatestBlockhash
  | SendRawTransaction (rawTransaction : Buffer)
  | ConfirmTransaction (signature : string)
  | SendAndConfirmTransaction (transaction : Transaction).

(** A [Connection] is the endpoint's behaviour: what each call answers.
    [sendRawTransaction raw k] is the answer to the submission of [raw]
    after [k] earlier submissions by the same sender, and likewise for
    web3.js's [sendAndConfirmTransaction]. *)
Record Connection : Type := mkConnection {
  getLatestBlockhash : Run Blockhash;
  sendRawTransaction : Buffer -> nat -> Run string;
  confirmTransaction : string -> Run unit;
  sendAndConfirmTransaction : Transaction -> nat -> Run string
}.

Definition is_submission (c : RpcCall) : bool :=
  match c with
  | SendRawTransaction _ | SendAndConfirmTransaction _ => true
  | _ => false
  end.

(** The number of submission attempts in a log of calls. *)
Definition submissions (log : list RpcCall) : nat := length (filter is_submission log).

(** [generateRawTransactions(batchSize, fundingWallet, destinationWallet,
    connection)]: the raw buffers, and the RPC calls made. *)
Definition generateRawTransactions `{Web3} (batchSize : Z) (fundingWallet : Keypair)
    (destinationWallet : PublicKey) (connection : Connection)
  : Run (list Buffer) * list RpcCall :=
  let fromPubkey := publicKey fundingWallet in
  let allInstructions := transfer_instructions batchSize fromPubkey destinationWallet 10000 in
  let result :=
    blockhash ← getLatestBlockhash connection;
    let numTransactions := Math_ceil_div (Z.of_nat (length allInstructions)) batchSize in
    match loop_bound numTransactions with
    | None => NoReturn
    | Some n =>
        for_loop_run 0 n
          (fun i rawPaymentBatches =>
             let lowerIndex := i * batchSize in
             let upperIndex := (i + 1) * batchSize in
             let tx := fill_transaction allInstructions lowerIndex upperIndex in
             let tx := set_recentBlockhash tx blockhash in
             tx ← tx_sign tx fundingWallet;
             rawTxBuffer ← customSerializeTransaction tx;
             Ret (rawPaymentBatches ++ [rawTxBuffer]))
          []
    end in
  (result, [GetLatestBlockhash]).

(** ** Sending with retry *)

(** The [try] block of [sendRawTransactionWithRetry]: submit, wait for
    the confirmation, return the signature.  [sent] is the number of
    submissions made before.  The result comes with the calls made. *)
Definition try_send (connection : Connection) (rawTransaction : Buffer) (sent : nat)
  : Run string * list RpcCall :=
  match sendRawTransaction connection rawTransaction sent with
  | Ret signature =>
      (_ ← confirmTransaction connection signature; Ret signature,
       [SendRawTransaction rawTransaction; ConfirmTransaction signature])
  | Throw err => (Throw err, [SendRawTransaction rawTransaction])
  | NoReturn => (NoReturn, [SendRawTransaction rawTransaction])
  end.

(** The [try] block of [sendTransactionWithRetry]: fetch a blockhash, put
    it in the transaction, send and confirm. *)
Definition try_send_and_confirm (connection : Connection) (transaction : Transaction)
    (sent : nat) : Run string * list RpcCall :=
  match getLatestBlockhash connection with
  | Ret blockhash =>
      let transaction := set_recentBlockhash transaction blockhash in
      (sendAndConfirmTransaction connection transaction sent,
       [GetLatestBlockhash; SendAndConfirmTransaction transaction])
  | Throw err => (Throw err, [GetLatestBlockhash])
  | NoReturn => (NoReturn, [GetLatestBlockhash])
  end.

(** The two branches of the [catch] block, up to the statement [i++] that
    follows them: both rethrow. *)
Definition catch_branches (err : JsError) : Run unit :=
  if instanceof_SendTransactionError err then Throw err else Throw err.

(** The [while (i < retries)] loop that both senders share, around the
    [try] block [attempt]; one unit of fuel per round. *)
Fixpoint retry_loop (fuel : nat) (attempt : nat -> Run string * list RpcCall)
    (retries i : Z) (sent : nat) (log : list RpcCall) : Run string * list RpcCall :=
  match fuel with
  | O => (NoReturn, log)
  | S fuel' =>
      if decide (i < retries) then
        let '(outcome, calls) := attempt sent in
        let log := log ++ calls in
        match outcome with
        | Ret signature => (Ret signature, log)
        | NoReturn => (NoReturn, log)
        | Throw err =>
            match catch_branches err with
            | Ret _ => retry_loop fuel' attempt retries (i + 1) (S sent) log
            | Throw err' => (Throw err', log)
            | NoReturn => (NoReturn, log)
            end
        end
      else
        (Throw (Error ("Failed to send transaction after " +:+ pretty retries +:+ " attempts")),
         log)
  end.

(** [sendRawTransactionWithRetry(connection, rawTransaction, retries)]:
    the promise's outcome and the calls made.  The loop variable grows by
    one per round, so [retries] rounds and the final test are all there
    can be. *)
Definition sendRawTransactionWithRetry (connection : Connection) (rawTransaction : Buffer)
    (retries : Z) : Run string * list RpcCall :=
  retry_loop (S (Z.to_nat retries)) (try_send connection rawTransaction) retries 0 0 [].

(** [sendTransactionWithRetry(connection, transaction, publicKey,
    secretKey, retries)]; the keys only travel to web3.js. *)
Definition sendTransactionWithRetry (connection : Connection) (transaction : Transaction)
    (retries : Z) : Run string * list RpcCall :=
  retry_loop (S (Z.to_nat retries)) (try_send_and_confirm connection transaction)
    retries 0 0 [].

(** The default [retries = 5]. *)
Definition default_retries : Z := 5.

(** ** Staggered dispatch *)

(** The state a promise ends in. *)
Inductive PromiseState (A : Type) : Type :=
  | Pending
  | Fulfilled (value : A)
  | Rejected (reason : JsError).
Arguments Pending {A}.
Arguments Fulfilled {A} value.
Arguments Rejected {A} reason.

(** The promise an [async] function returns. *)
Definition promise_of {A : Type} (r : Run A) : PromiseState A :=
  match r with
  | Ret a => Fulfilled a
  | Throw e => Rejected e
  | NoReturn => Pending
  end.

(** [p.then(onFulfilled)] with no second argument: [onFulfilled] is called
    with the value of [p] when [p] fulfils, and is not called otherwise (a
    rejection goes to the promise [then] returns, which nothing reads; a
    runtime that ends the process on an unhandled rejection leaves the
    caller without a result just the same). *)
Definition then_call {A : Type} (p : PromiseState A) : option A :=
  match p with
  | Fulfilled value => Some value
  | _ => None
  end.

(** [new Promise((resolve) => ...)]: an executor that takes [resolve]
    alone can only fulfil its promise; the promise stays pending unless
    [resolve] is called. *)
Definition new_Promise_resolve {A : Type} (resolved : option A) : PromiseState A :=
  match resolved with
  | Some value => Fulfilled value
  | None => Pending
  end.

Inductive PromiseSettledResult (A : Type) : Type :=
  | fulfilled (value : A)
  | rejected (reason : JsError).
Arguments fulfilled {A} value.
Arguments rejected {A} reason.

Definition settled {A : Type} (p : PromiseState A) : option (PromiseSettledResult A) :=
  match p with
  | Pending => None
  | Fulfilled value => Some (fulfilled value)
  | Rejected reason => Some (rejected reason)
  end.

(** [await Promise.allSettled(promises)]: the results in the order of the
    promises once every one has settled; it does not return while one is
    pending. *)
Definition Promise_allSettled {A : Type} (promises : list (PromiseState A))
  : Run (list (PromiseSettledResult A)) :=
  match mapM settled promises with
  | Some results => Ret results
  | None => NoReturn
  end.

Definition TX_INTERVAL : Z := 3500.

(** One timer of [executeRawTransactions]: the delay handed to
    [setTimeout] and the promise the callback resolves. *)
Record Staggered : Type := mkStaggered {
  delay : Z;
  promise : PromiseState string
}.

(** The [map] of [executeRawTransactions] and [executeTransactions]: for
    the message at index [i], a promise whose executor sets a timer of
    [i * TX_INTERVAL] milliseconds; the callback sends the message with
    [send] and passes [resolve] to [then]. *)
Definition stagger {A : Type} (send : A -> Run string * list RpcCall) (messages : list A)
  : list Staggered :=
  imap (fun i message =>
          let sending := promise_of (send message).1 in
          mkStaggered (Z.of_nat i * TX_INTERVAL) (new_Promise_resolve (then_call sending)))
       messages.

(** [executeRawTransactions(connection, rawTransactionList)]. *)
Definition executeRawTransactions (connection : Connection) (rawTransactionList : list Buffer)
  : Run (list (PromiseSettledResult string)) :=
  let staggeredTransactions :=
    promise <$> stagger (fun rawTransaction =>
                           sendRawTransactionWithRetry connection rawTransaction
                             default_retries)
                  rawTransactionList in
  Promise_allSettled staggeredTransactions.

(** [executeTransactions(connection, transactionList, publicKey,
    secretKey)]. *)
Definition executeTransactions (connection : Connection) (transactionList : list Transaction)
  : Run (list (PromiseSettledResult string)) :=
  let staggeredTransactions :=
    promise <$> stagger (fun transaction =>
                           sendTransactionWithRetry connection transaction default_retries)
                  transactionList in
  Promise_allSettled staggeredTransactions.

(** ** Definitions used to state the properties *)

(** The bytes [encodeLength] left in [array'] at [offset]. *)
Definition emitted (array' : Buffer) (offset len : Z) : Buffer :=
  take (Z.to_nat len) (drop (Z.to_nat offset) array').

(** The matching decoder, written after the specification's words: base 128,
    little endian, the low seven bits of each byte are payload and bit 0x80
    says that another byte follows.  It returns the value and the number of
    bytes it read, and nothing when the bytes end on a continuation. *)
Fixpoint decodeLength (bytes : list Z) : option (Z * nat) :=
  match bytes with
  | [] => None
  | b :: rest =>
      if decide (Z.land b 0x80 = 0) then Some (Z.land b 0x7f, 1%nat)
      else match decodeLength rest with
           | Some (v, k) => Some (Z.land b 0x7f + 128 * v, S k)
           | None => None
           end
  end.

(** The bytes the loop of [encodeLength] hands to the array within
    [rounds] rounds, for a count that fits 31 bits. *)
Fixpoint varint (rounds : nat) (n : Z) : list Z :=
  match rounds with
  | O => []
  | S k => if decide (n / 128 = 0) then [n mod 128]
           else (n mod 128 + 128) :: varint k (n / 128)
  end.

(** Consecutive indexed stores. *)
Fixpoint store_all (array : Buffer) (index : Z) (bytes : list Z) : Buffer :=
  match bytes with
  | [] => array
  | b :: rest => store_all (store array index b) (index + 1) rest
  end.

(** A slot that holds a 64-byte signature. *)
Definition signed64 (sig : SignaturePubkeyPair) : Prop :=
  match signature sig with
  | Some bytes => length bytes = 64%nat
  | None => False
  end.

#[global] Instance signed64_dec sig : Decision (signed64 sig).
Proof. unfold signed64. destruct (signature sig); apply _. Defined.

Definition signature_bytes (sig : SignaturePubkeyPair) : list Z :=
  match signature sig with
  | Some bytes => bytes
  | None => []
  end.

(** The signatures of a transaction, concatenated in signer order. *)
Definition signature_block (sigs : list SignaturePubkeyPair) : list Z :=
  concat (signature_bytes <$> sigs).


(** The batch the specification describes: [operations[i*B : (i+1)*B]],
    clipped at the end of the list. *)
Definition batch_slice (operations : list TransactionInstruction) (batchSize i : Z)
  : list TransactionInstruction :=
  take (Z.to_nat batchSize) (drop (Z.to_nat (i * batchSize)) operations).

(** The number of rounds of the slicing loop, for a positive batch size. *)
Definition num_batches (len : nat) (batchSize : Z) : nat :=
  Z.to_nat (- ((- Z.of_nat len) / batchSize)).

(** The transaction [generateRawTransactions] builds for a positive batch
    size: all the transfers it created, the blockhash of the endpoint and
    the one slot of the funding wallet, empty ([None]) while the message is
    compiled for signing and filled afterwards. *)
Definition single_transaction (batchSize : Z) (fundingWallet : Keypair)
    (destinationWallet : PublicKey) (blockhash : Blockhash) (signature : option Buffer)
  : Transaction :=
  mkTransaction
    (transfer_instructions batchSize (publicKey fundingWallet) destinationWallet 10000)
    (Some blockhash)
    [mkSignaturePubkeyPair signature (publicKey fundingWallet)].

(** The outcome of the send for one message, as [executeRawTransactions]
    gets to see it. *)
Definition send_outcome (connection : Connection) (rawTransaction : Buffer)
  : option (PromiseSettledResult string) :=
  match (sendRawTransactionWithRetry connection rawTransaction default_retries).1 with
  | Ret signature => Some (fulfilled signature)
  | _ => None
  end.

Definition send_rejected (connection : Connection) (rawTransaction : Buffer) : bool :=
  match (sendRawTransactionWithRetry connection rawTransaction default_retries).1 with
  | Throw _ => true
  | _ => false
  end.

(** ** Example inputs *)

Module Examples.

(** Two keypairs as [Keypair.fromSecretKey] accepts them (a 32-byte seed
    followed by the public key it determines), in the base-58 text of their
    public keys, a third public key and a blockhash. *)
Definition payer : PublicKey := "BuTEkvZy8Ci9r9tLVEvcVJXsPzpLzXpAGGEe5QrztJu8".
Definition payee : PublicKey := "9YzJ5gmp5LdDCB1Y4n7KNrJbqLJ9cTds1JLYyHBgqBDW".
Definition recent : Blockhash := "9KJe36bJ1MqqZK6sqG58AvpXxbWhJESa58GsDzqvGeqX".

Definition payer_secretKey : Buffer :=
  [47; 107; 27; 63; 20; 24; 170; 48; 28; 233; 66; 42; 28; 212; 81; 151;
   25; 228; 0; 46; 170; 144; 60; 113; 87; 28; 193; 91; 222; 167; 179; 93;
   162; 4; 188; 226; 46; 139; 228; 141; 8; 100; 75; 37; 184; 100; 51; 241;
   19; 115; 5; 91; 208; 213; 27; 128; 186; 5; 53; 241; 113; 77; 2; 27].

Definition wallet : Keypair := mkKeypair payer payer_secretKey.

(** The base-58 alphabet, and the texts written in it. *)
Definition base58_alphabet : string :=
  "123456789ABCDEFGHJKLMNPQRSTUVWXYZabcdefghijkmnopqrstuvwxyz".

Definition is_base58 (text : string) : bool :=
  forallb (fun c => bool_decide (c ∈ String.list_ascii_of_string base58_alphabet))
    (String.list_ascii_of_string text).

(** The accounts a transaction refers to: its fee payer (the signer of the
    first slot), and the two ends of every transfer. *)
Definition account_keys (tx : Transaction) : list PublicKey :=
  (signer <$> take 1 (signatures tx))
  ++ concat ((fun ix => [fromPubkey ix; toPubkey ix]) <$> instructions tx).

(** The signing of the stand-in for web3.js below. *)
Definition sign_detached (message key : Buffer) : Run Buffer :=
  if decide (length key = 64%nat) then Ret (replicate 64 7)
  else Throw (Error "bad secret key size").

Definition sign_detached_length message key signature :
  sign_detached message key = Ret signature -> length signature = 64%nat.
Proof. unfold sign_detached. case_decide; [by intros [= <-] | discriminate]. Defined.

(** A stand-in for web3.js.  Like the library, in its order and with its
    messages, it refuses a transaction without recent blockhash, without
    fee payer, with a slot for a signer that is none of its accounts, or
    with a blockhash that is no base-58 text; and it refuses to sign with a
    secret key that is not 64 bytes long.  The message and the signature are
    not those of Solana: four bytes that count the instructions, and a
    constant signature. *)
Definition compile (tx : Transaction) : Run Buffer :=
  match recentBlockhash tx with
  | None => Throw (Error "Transaction recentBlockhash required")
  | Some blockhash =>
      if decide (signatures tx = []) then Throw (Error "Transaction fee payer required")
      else
        match list_find (fun sig => signer sig ∉ account_keys tx) (signatures tx) with
        | Some (_, sig) => Throw (Error ("unknown signer: " +:+ signer sig))
        | None =>
            if is_base58 blockhash
            then Ret [1; 0; 1; Z.of_nat (length (instructions tx)) mod 256]
            else Throw (Error "Non-base58 character")
        end
  end.

Definition web3 : Web3 := {|
  compileMessage_serialize := compile;
  nacl_sign := sign_detached;
  nacl_sign_length := sign_detached_length
|}.

Definition signed_slot : SignaturePubkeyPair :=
  mkSignaturePubkeyPair (Some (replicate 64 9)) payer.

(** A transfer signed twice by its payer, and two transfers of which the
    cosigner has not signed the second: with the cosigner paying the fee
    (its slot comes first), and with the payer paying it. *)
Definition signed_twice : Transaction :=
  mkTransaction [SystemProgram_transfer payer payee 10000] (Some recent)
    [signed_slot; signed_slot].

(** 2^21 signatures. *)
Definition oversigned : Transaction :=
  mkTransaction [] (Some recent) (replicate (Z.to_nat 2097152) signed_slot).

Definition seven_operations : list TransactionInstruction :=
  (fun k => SystemProgram_transfer payer payee k) <$> [1; 2; 3; 4; 5; 6; 7].

(** An endpoint that accepts everything. *)
Definition accepting : Connection :=
  mkConnection (Ret recent) (fun _ _ => Ret "signature") (fun _ => Ret tt)
    (fun _ _ => Ret "signature").

(** An endpoint that rejects every submission, and one that accepts the
    third. *)
Definition always_rejecting : Connection :=
  mkConnection (Ret recent)
    (fun _ k => Throw (SendTransactionError ("rejected " +:+ pretty k)))
    (fun _ => Ret tt)
    (fun _ k => Throw (SendTransactionError ("rejected " +:+ pretty k))).

Definition accepting_third : Connection :=
  mkConnection (Ret recent)
    (fun _ k => if decide (k = 2%nat) then Ret "signature 2"
                else Throw (SendTransactionError ("rejected " +:+ pretty k)))
    (fun _ => Ret tt)
    (fun _ k => if decide (k = 2%nat) then Ret "signature 2"
                else Throw (SendTransactionError ("rejected " +:+ pretty k))).

(** An endpoint that rejects the messages whose first byte is a multiple
    of three, and ten messages of which it rejects three. *)
Definition rejecting_multiples_of_three : Connection :=
  mkConnection (Ret recent)
    (fun rawTransaction _ =>
       match rawTransaction with
       | b :: _ => if decide (b mod 3 = 0) then Throw (SendTransactionError "rejected")
                   else Ret ("signature " +:+ pretty b)
       | [] => Throw (SendTransactionError "empty")
       end)
    (fun _ => Ret tt)
    (fun _ _ => Ret "signature").

Definition ten_messages : list Buffer := (fun b => [b]) <$> seqZ 1 10.

End Examples.

(** ** Loading the keypair and [main] (src/unnamed/part_000) *)

(** What Node and web3.js supply to [loadKeypairFromFile] and [main]:
    [path.resolve], [fs.readFileSync(path, "utf-8")], [JSON.parse] (the
    file holds an array of numbers), [Keypair.fromSecretKey],
    [new Connection(url)] and [new PublicKey(text)]. *)
Class Host : Type := {
  path_resolve : string -> string;
  fs_readFileSync : string -> Run string;
  JSON_parse : string -> Run (list Z);
  Keypair_fromSecretKey : Buffer -> Run Keypair;
  new_Connection : string -> Run Connection;
  new_PublicKey : string -> Run PublicKey
}.

(** [error.message]. *)
Definition error_message (error : JsError) : string :=
  match error with
  | SendTransactionError msg | Error msg | RangeError msg => msg
  end.

(** [error instanceof Error]: every error class of the embedding extends
    [Error]. *)
Definition instanceof_Error (error : JsError) : bool :=
  match error with
  | SendTransactionError _ | Error _ | RangeError _ => true
  end.

(** [Uint8Array.from(numbers)]: each number is stored modulo 256. *)
Definition Uint8Array_from (numbers : list Z) : Buffer := (fun n => n mod 256) <$> numbers.

(** [loadKeypairFromFile(keypairPath)]. *)
Definition loadKeypairFromFile `{Host} (keypairPath : string) : Run Keypair :=
  let attempt :=
    let resolvedPath := path_resolve keypairPath in
    keypairData ← fs_readFileSync resolvedPath;
    secretKey ← JSON_parse keypairData;
    let secretKeyUint8Array := Uint8Array_from secretKey in
    Keypair_fromSecretKey secretKeyUint8Array in
  match attempt with
  | Throw error =>
      if instanceof_Error error then
        Throw (Error ("Failed to load keypair from " +:+ keypairPath +:+ ": "
                      +:+ error_message error))
      else Throw error
  | outcome => outcome
  end.

(** The constants [main] reads, as computed from the environment when the
    module is loaded; [IX_BATCH_SIZE] is taken to be an integer. *)
Record Config : Type := mkConfig {
  IX_BATCH_SIZE : Z;
  RPC_URL : string;
  FUNDING_WALLET_PATH : string;
  DESTINATION_WALLET_PUBKEY : string
}.

(** [main()]; the calls of [console.log] are left out. *)
Definition main `{Web3} `{Host} (config : Config) : Run unit :=
  if decide (FUNDING_WALLET_PATH config = "") then
    Throw (Error "FUNDING_WALLET_PATH is required in .env file")
  else if decide (DESTINATION_WALLET_PUBKEY config = "") then
    Throw (Error "DESTINATION_WALLET_PUBKEY is required in .env file")
  else
    connection ← new_Connection (RPC_URL config);
    fundingPrivateKey ← loadKeypairFromFile (FUNDING_WALLET_PATH config);
    destinationWallet ← new_PublicKey (DESTINATION_WALLET_PUBKEY config);
    rawTransactionList ←
      (generateRawTransactions (IX_BATCH_SIZE config) fundingPrivateKey destinationWallet
         connection).1;
    _ ← executeRawTransactions connection rawTransactionList;
    Ret tt.

(** ** Further definitions used to state properties *)

(** The steps of [main] before the generator, when all of them succeed. *)
Definition started `{Host} (config : Config) (connection : Connection)
    (fundingPrivateKey : Keypair) (destinationWallet : PublicKey) : Prop :=
  FUNDING_WALLET_PATH config <> ""
  /\ DESTINATION_WALLET_PUBKEY config <> ""
  /\ new_Connection (RPC_URL config) = Ret connection
  /\ loadKeypairFromFile (FUNDING_WALLET_PATH config) = Ret fundingPrivateKey
  /\ new_PublicKey (DESTINATION_WALLET_PUBKEY config) = Ret destinationWallet.

(** A slot that holds a signature of at most 64 bytes. *)
Definition signed_at_most64 (sig : SignaturePubkeyPair) : Prop :=
  match signature sig with
  | Some bytes => (length bytes <= 64)%nat
  | None => False
  end.

#[global] Instance signed_at_most64_dec sig : Decision (signed_at_most64 sig).
Proof. unfold signed_at_most64. destruct (signature sig); apply _. Defined.

(** A signature followed by the zero bytes that fill its 64-byte slot. *)
Definition pad64 (bytes : list Z) : list Z := bytes ++ replicate (64 - length bytes) 0.

Definition padded_block (sigs : list SignaturePubkeyPair) : list Z :=
  concat ((fun sig => pad64 (signature_bytes sig)) <$> sigs).

(** The outcome of the older sender for one transaction, as
    [executeTransactions] gets to see it. *)
Definition send_transaction_outcome (connection : Connection) (transaction : Transaction)
  : option (PromiseSettledResult string) :=
  match (sendTransactionWithRetry connection transaction default_retries).1 with
  | Ret signature => Some (fulfilled signature)
  | _ => None
  end.

Module MoreExamples.

(** The text of a keypair file: the secret key of [Examples.wallet]. *)
Definition id_json : string :=
  "[47,107,27,63,20,24,170,48,28,233,66,42,28,212,81,151,25,228,0,46,170,144,60,113,87,28,193,91,222,167,179,93,162,4,188,226,46,139,228,141,8,100,75,37,184,100,51,241,19,115,5,91,208,213,27,128,186,5,53,241,113,77,2,27]".

(** A host with one readable keypair file.  It reads that file only, parses
    its text only, and refuses a secret key that is not 64 bytes long and a
    public key that is no base-58 text, as the library does. *)
Definition host : Host := {|
  path_resolve p := "/home/user/" +:+ p;
  fs_readFileSync p :=
    if decide (p = "/home/user/id.json") then Ret id_json
    else Throw (Error ("ENOENT: no such file or directory, open '" +:+ p +:+ "'"));
  JSON_parse text :=
    if decide (text = id_json) then Ret Examples.payer_secretKey
    else Throw (Error "Unexpected token in JSON");
  Keypair_fromSecretKey bytes :=
    if decide (length bytes = 64%nat) then Ret (mkKeypair Examples.payer bytes)
    else Throw (Error "bad secret key size");
  new_Connection url := Ret Examples.accepting;
  new_PublicKey text :=
    if Examples.is_base58 text then Ret text else Throw (Error "Non-base58 character")
|}.

Definition config : Config :=
  mkConfig 65 "https://api.devnet.solana.com" "id.json" Examples.payee.
Definition idle_config : Config :=
  mkConfig 0 "https://api.devnet.solana.com" "id.json" Examples.payee.

Definition short_slot : SignaturePubkeyPair :=
  mkSignaturePubkeyPair (Some [5; 6; 7]) Examples.payer.

Definition short_signed : Transaction :=
  mkTransaction [SystemProgram_transfer Examples.payer Examples.payee 10000]
    (Some Examples.recent) [short_slot; Examples.signed_slot].

(** An endpoint whose blockhash request fails, and one whose blockhash is
    no base-58 text. *)
Definition no_blockhash : Connection :=
  mkConnection (Throw (Error "fetch failed")) (fun _ _ => Ret "signature") (fun _ => Ret tt)
    (fun _ _ => Ret "signature").

Definition bad_blockhash : Connection :=
  mkConnection (Ret "blockhash") (fun _ _ => Ret "signature") (fun _ => Ret tt)
    (fun _ _ => Ret "signature").

(** A host behind the endpoint with that blockhash. *)
Definition bad_blockhash_host : Host := {|
  path_resolve := @path_resolve host;
  fs_readFileSync := @fs_readFileSync host;
  JSON_parse := @JSON_parse host;
  Keypair_fromSecretKey := @Keypair_fromSecretKey host;
  new_Connection url := Ret bad_blockhash;
  new_PublicKey := @new_PublicKey host
|}.

End MoreExamples.

(** * Properties *)

(** ** Bit operations *)
Section Bits.

Lemma ToInt32_small z : - 2^31 <= z < 2^31 -> ToInt32 z = z.
Proof. intros Hz. unfold ToInt32. rewrite Z.mod_small; lia. Qed.

Lemma ToInt32_range z : - 2^31 <= ToInt32 z < 2^31.
Proof. unfold ToInt32. pose proof (Z.mod_pos_bound (z + 2^31) (2^32)). lia. Qed.

Lemma ToInt32_idem z : ToInt32 (ToInt32 z) = ToInt32 z.
Proof. apply ToInt32_small, ToInt32_range. Qed.

Lemma band_low7 r : band r 0x7f = ToInt32 r mod 128.
Proof.
  unfold band. rewrite (ToInt32_small 0x7f) by lia.
  change 0x7f with (Z.ones 7). by rewrite Z.land_ones.
Qed.

Lemma sar_7 r : sar r 7 = ToInt32 r / 128.
Proof. unfold sar. change (7 mod 32) with 7. by rewrite Z.shiftr_div_pow2. Qed.

Lemma land_low7 x : Z.land x 0x7f = x mod 128.
Proof. change 0x7f with (Z.ones 7). by rewrite Z.land_ones. Qed.

Lemma land_bit7_low x : 0 <= x < 128 -> Z.land x 0x80 = 0.
Proof.
  intros Hx. rewrite <- (Z.mod_small x 128) by lia.
  change 128 with (2^7) at 1. rewrite <- Z.land_ones by lia.
  rewrite <- Z.land_assoc. change (Z.land (Z.ones 7) 0x80) with 0. apply Z.land_0_r.
Qed.

Lemma lor_bit7 x : 0 <= x < 128 -> Z.lor x 0x80 = x + 128.
Proof.
  intros Hx. pose proof (land_bit7_low x Hx) as Hd.
  rewrite <- Z.lxor_lor by done. symmetry. by apply Z.add_nocarry_lxor.
Qed.

Lemma bor_bit7 x : 0 <= x < 128 -> bor x 0x80 = x + 128.
Proof.
  intros Hx. unfold bor. rewrite !ToInt32_small by lia. by apply lor_bit7.
Qed.

Lemma land_bit7_high x : 0 <= x < 128 -> Z.land (x + 128) 0x80 = 128.
Proof.
  intros Hx. rewrite <- lor_bit7 by done.
  rewrite Z.land_lor_distr_l, land_bit7_low by done. reflexivity.
Qed.

End Bits.

Section Encoder.

Lemma encodeLength_loop_ToInt32 fuel r len array offset :
  encodeLength_loop fuel (ToInt32 r) len array offset
  = encodeLength_loop fuel r len array offset.
Proof.
  destruct fuel as [|fuel]; [done|]. simpl.
  by rewrite !band_low7, !sar_7, !ToInt32_idem.
Qed.

Lemma encodeLength_loop_step fuel r len array offset :
  0 <= r < 2^31 ->
  encodeLength_loop (S fuel) r len array offset
  = if decide (r / 128 = 0) then Ret (store array (offset + len) (r mod 128), len + 1)
    else encodeLength_loop fuel (r / 128) (len + 1)
           (store array (offset + len) (r mod 128 + 128)) offset.
Proof.
  intros Hr. simpl. rewrite band_low7, sar_7, ToInt32_small by lia.
  destruct (decide (r / 128 = 0)) as [Hz|Hz].
  - rewrite decide_False by lia. done.
  - rewrite decide_True by done. rewrite bor_bit7; [done|].
    apply Z.mod_pos_bound. lia.
Qed.

Lemma shift7_bound (k : nat) r :
  0 <= r < 2 ^ (7 * Z.of_nat (S k)) -> 0 <= r / 128 < 2 ^ (7 * Z.of_nat k).
Proof.
  intros Hr. split; [apply Z.div_pos; lia|]. apply Z.div_lt_upper_bound; [lia|].
  replace (7 * Z.of_nat (S k)) with (7 + 7 * Z.of_nat k) in Hr by lia.
  rewrite Z.pow_add_r in Hr by lia. lia.
Qed.

Lemma varint_S k n :
  varint (S k) n
  = if decide (n / 128 = 0) then [n mod 128] else (n mod 128 + 128) :: varint k (n / 128).
Proof. reflexivity. Qed.

Lemma encodeLength_loop_varint fuel : forall r len array offset,
  0 <= r < 2^31 -> r < 2 ^ (7 * Z.of_nat (S fuel)) ->
  encodeLength_loop (S fuel) r len array offset
  = Ret (store_all array (offset + len) (varint (S fuel) r),
         len + Z.of_nat (length (varint (S fuel) r))).
Proof.
  induction fuel as [|fuel IH]; intros r len array offset Hr Hlt;
    rewrite encodeLength_loop_step, (varint_S _ r) by done;
    destruct (decide (r / 128 = 0)) as [Hz|Hz]; cbn [store_all length];
    try (f_equal; f_equal; lia).
  - change (2 ^ (7 * Z.of_nat 1)) with 128 in Hlt.
    rewrite Z.div_small in Hz by lia. done.
  - rewrite IH.
    + f_equal. f_equal; [by rewrite <- Z.add_assoc | lia].
    + split; [apply Z.div_pos; lia|]. apply Z.div_lt_upper_bound; lia.
    + apply shift7_bound. lia.
Qed.

(** On a count whose 32-bit reading is negative the shifts never reach
    zero: the loop does not end, whatever the fuel. *)
Lemma encodeLength_loop_negative fuel : forall r len array offset,
  ToInt32 r < 0 -> encodeLength_loop fuel r len array offset = NoReturn.
Proof.
  induction fuel as [|fuel IH]; intros r len array offset Hneg; [done|].
  simpl. rewrite !sar_7.
  pose proof (ToInt32_range r) as Hrange.
  assert (- 2^31 <= ToInt32 r / 128 < 0) as Hq.
  { split; [apply Z.div_le_lower_bound; lia | apply Z.div_lt_upper_bound; lia]. }
  rewrite (decide_False (P := ToInt32 r / 128 = 0)) by lia.
  apply IH. rewrite ToInt32_small; lia.
Qed.

Lemma varint_enough fuel : forall r,
  0 <= r < 2 ^ (7 * Z.of_nat (S fuel)) -> varint (S (S fuel)) r = varint (S fuel) r.
Proof.
  induction fuel as [|fuel IH]; intros r Hr;
    rewrite (varint_S (S _)), (varint_S _ r);
    destruct (decide (r / 128 = 0)) as [Hz|Hz]; try done.
  - change (2 ^ (7 * Z.of_nat 1)) with 128 in Hr.
    rewrite Z.div_small in Hz by lia. done.
  - f_equal. by apply IH, shift7_bound.
Qed.

Lemma varint_rounds fuel r :
  0 <= r < 2^31 -> (encodeLength_rounds <= fuel)%nat ->
  varint fuel r = varint encodeLength_rounds r.
Proof.
  intros Hr Hfuel. induction Hfuel as [|fuel Hle IH]; [done|].
  destruct fuel as [|fuel]; [unfold encodeLength_rounds in Hle; lia|].
  rewrite varint_enough; [done|]. split; [lia|].
  eapply Z.lt_le_trans; [apply Hr|].
  apply Z.pow_le_mono_r; unfold encodeLength_rounds in *; lia.
Qed.

(** More fuel than [encodeLength_rounds] changes nothing. *)
Lemma encodeLength_loop_enough fuel r len array offset :
  (encodeLength_rounds <= fuel)%nat ->
  encodeLength_loop fuel r len array offset
  = encodeLength_loop encodeLength_rounds r len array offset.
Proof.
  intros Hfuel.
  rewrite <- (encodeLength_loop_ToInt32 fuel), <- (encodeLength_loop_ToInt32 encodeLength_rounds).
  pose proof (ToInt32_range r) as Hrange.
  destruct (decide (ToInt32 r < 0)) as [Hneg|Hpos].
  - by rewrite !encodeLength_loop_negative by (by rewrite ToInt32_idem).
  - assert (0 <= ToInt32 r < 2^31) as Hr by lia.
    destruct fuel as [|fuel]; [unfold encodeLength_rounds in Hfuel; lia|].
    assert (ToInt32 r < 2 ^ (7 * Z.of_nat (S fuel))) as Hfit.
    { eapply Z.lt_le_trans with (2^31); [lia|].
      apply Z.pow_le_mono_r; unfold encodeLength_rounds in *; lia. }
    assert (ToInt32 r < 2 ^ (7 * Z.of_nat 5)) as Hfit5.
    { change (2 ^ (7 * Z.of_nat 5)) with (2 ^ 35). lia. }
    rewrite (encodeLength_loop_varint fuel) by done.
    unfold encodeLength_rounds at 1. rewrite (encodeLength_loop_varint 4) by done.
    by rewrite (varint_rounds (S fuel)) by done.
Qed.

(** What [encodeLength] does on a count below 2^31. *)
Lemma encodeLength_varint count array offset :
  0 <= count < 2^31 ->
  encodeLength count array offset
  = Ret (store_all array offset (varint encodeLength_rounds count),
         Z.of_nat (length (varint encodeLength_rounds count))).
Proof.
  intros Hc. unfold encodeLength, encodeLength_rounds.
  rewrite encodeLength_loop_varint; [|done|change (2 ^ (7 * Z.of_nat 5)) with (2 ^ 35); lia].
  by rewrite Z.add_0_r, Z.add_0_l.
Qed.

Lemma varint_length n :
  0 <= n < 2^31 ->
  Z.of_nat (length (varint encodeLength_rounds n))
  = if decide (n < 128) then 1
    else if decide (n < 16384) then 2
    else if decide (n < 2097152) then 3
    else if decide (n < 268435456) then 4
    else 5.
Proof.
  intros Hn. unfold encodeLength_rounds. rewrite !varint_S.
  repeat case_decide; cbn [length varint]; Z.div_mod_to_equations; lia.
Qed.

Lemma varint_bytes k : forall n, 0 <= n -> Forall (fun b => 0 <= b < 256) (varint k n).
Proof.
  induction k as [|k IH]; intros n Hn; [constructor|]. rewrite varint_S.
  pose proof (Z.mod_pos_bound n 128).
  case_decide; constructor; try lia; [constructor|].
  apply IH, Z.div_pos; lia.
Qed.

Lemma decodeLength_varint k : forall n,
  0 <= n < 2 ^ (7 * Z.of_nat (S k)) ->
  decodeLength (varint (S k) n) = Some (n, length (varint (S k) n)).
Proof.
  induction k as [|k IH]; intros n Hn; rewrite (varint_S _ n);
    pose proof (Z.mod_pos_bound n 128 ltac:(lia)) as Hm;
    destruct (decide (n / 128 = 0)) as [Hz|Hz]; cbn [decodeLength length].
  - rewrite decide_True by (apply land_bit7_low; lia).
    rewrite land_low7, Z.mod_mod by lia. do 2 f_equal. 
    rewrite (Z.div_mod n 128) at 2 by lia. lia.
  - change (2 ^ (7 * Z.of_nat 1)) with 128 in Hn. rewrite Z.div_small in Hz by lia. done.
  - rewrite decide_True by (apply land_bit7_low; lia).
    rewrite land_low7, Z.mod_mod by lia. do 2 f_equal.
    rewrite (Z.div_mod n 128) at 2 by lia. lia.
  - rewrite decide_False by (rewrite land_bit7_high; lia).
    rewrite IH.
    + rewrite land_low7. do 2 f_equal.
      replace ((n mod 128 + 128) mod 128) with (n mod 128).
      * rewrite (Z.div_mod n 128) at 3 by lia. lia.
      * rewrite <- (Z.mod_small (n mod 128) 128) at 1 by lia.
        change 128 with (1 * 128) at 4. by rewrite Z.mod_add by lia.
    + by apply shift7_bound.
Qed.

End Encoder.

Section Buffers.

Lemma store_length array index v : length (store array index v) = length array.
Proof. unfold store. case_decide; [apply length_insert | done]. Qed.

Lemma store_all_length bytes : forall array index,
  length (store_all array index bytes) = length array.
Proof.
  induction bytes as [|b bytes IH]; intros array index; [done|].
  cbn [store_all]. by rewrite IH, store_length.
Qed.

(** Stores that fit overwrite exactly the bytes at their indices. *)
Lemma store_all_fits bytes : forall array index,
  0 <= index -> index + Z.of_nat (length bytes) <= Z.of_nat (length array) ->
  Forall (fun b => 0 <= b < 256) bytes ->
  store_all array index bytes
  = take (Z.to_nat index) array ++ bytes
      ++ drop (Z.to_nat index + length bytes) array.
Proof.
  induction bytes as [|b bytes IH]; intros array index Hi Hfit Hbytes; cbn [store_all length].
  - by rewrite Nat.add_0_r, app_nil_l, take_drop.
  - apply Forall_cons in Hbytes as [Hb Hbytes]. cbn [length] in Hfit.
    rewrite IH; [|lia|rewrite store_length; lia|done].
    unfold store. rewrite decide_True, Z.mod_small by lia.
    rewrite insert_take_drop by lia.
    replace (Z.to_nat (index + 1)) with (S (Z.to_nat index)) by lia.
    set (i := Z.to_nat index).
    assert (length (take i array) = i) as Hlen by (rewrite length_take; lia).
    rewrite (take_app_ge _ _ (S i)), Hlen by lia.
    replace (S i - i)%nat with 1%nat by lia. cbn [take].
    rewrite take_0, <- app_assoc. cbn [app]. do 2 f_equal.
    rewrite drop_app_ge, Hlen by lia.
    replace (S i + length bytes - i)%nat with (S (length bytes)) by lia. cbn [drop].
    rewrite drop_drop. do 2 f_equal. lia.
Qed.

Lemma emitted_store_all bytes array offset :
  0 <= offset -> offset + Z.of_nat (length bytes) <= Z.of_nat (length array) ->
  Forall (fun b => 0 <= b < 256) bytes ->
  emitted (store_all array offset bytes) offset (Z.of_nat (length bytes)) = bytes.
Proof.
  intros Ho Hfit Hbytes. unfold emitted. rewrite store_all_fits by done.
  rewrite drop_app_length' by (rewrite length_take; lia).
  rewrite Nat2Z.id. by rewrite take_app_length.
Qed.

End Buffers.

(** ** The serializer *)

Section Serializer.

Lemma Buffer_set_app pre rest source offset :
  offset = Z.of_nat (length pre) -> (length source <= length rest)%nat ->
  Buffer_set (pre ++ rest) source offset = Ret (pre ++ source ++ drop (length source) rest).
Proof.
  intros -> Hfit. unfold Buffer_set.
  rewrite decide_True by (rewrite length_app; lia).
  rewrite Nat2Z.id, take_app_length. do 3 f_equal.
  by rewrite drop_app_add.
Qed.

Lemma Buffer_set_overflow target source offset :
  Z.of_nat (length target) < offset + Z.of_nat (length source) ->
  Buffer_set target source offset = Throw (RangeError "offset is out of bounds").
Proof. intros Hover. unfold Buffer_set. by rewrite decide_False by lia. Qed.

Lemma signature_block_length sigs :
  Forall signed64 sigs -> length (signature_block sigs) = (64 * length sigs)%nat.
Proof.
  induction 1 as [|sig sigs Hsig _ IH]; [done|].
  unfold signature_block in *. cbn [fmap list_fmap concat length].
  unfold signed64 in Hsig. unfold signature_bytes at 1.
  destruct (signature sig) as [bytes|]; [|done].
  rewrite length_app, IH. lia.
Qed.

(** The signature loop on a buffer with room: the signatures follow the
    bytes before [offset], in order. *)
Lemma write_signatures_app sigs : forall pre rest offset,
  offset = Z.of_nat (length pre) -> (64 * length sigs <= length rest)%nat ->
  Forall signed64 sigs ->
  write_signatures sigs (pre ++ rest) offset
  = Ret (pre ++ signature_block sigs ++ drop (64 * length sigs) rest,
         offset + 64 * Z.of_nat (length sigs)).
Proof.
  induction sigs as [|sig sigs IH]; intros pre rest offset Hoff Hfit Hsigs.
  - cbn. by rewrite Z.add_0_r.
  - apply Forall_cons in Hsigs as [Hsig Hsigs]. cbn [write_signatures].
    unfold signed64 in Hsig. unfold signature_block. cbn [fmap list_fmap concat].
    unfold signature_bytes at 1.
    destruct (signature sig) as [bytes|]; [|done]. cbn [length] in *.
    rewrite Buffer_set_app by (done || lia). cbn [mbind Run_bind].
    rewrite (app_assoc pre bytes), IH; [| rewrite length_app; lia | rewrite length_drop; lia | done].
    fold (signature_block sigs). rewrite <- !app_assoc, drop_drop.
    rewrite Hsig. replace (64 * S (length sigs))%nat with (64 + 64 * length sigs)%nat by lia.
    f_equal. f_equal. lia.
Qed.



Lemma Buffer_alloc_length size : length (Buffer_alloc size) = Z.to_nat size.
Proof. apply length_replicate. Qed.

Lemma encodeLength_fits count array :
  0 <= count < 2^31 ->
  (length (varint encodeLength_rounds count) <= length array)%nat ->
  encodeLength count array 0
  = Ret (varint encodeLength_rounds count
           ++ drop (length (varint encodeLength_rounds count)) array,
         Z.of_nat (length (varint encodeLength_rounds count))).
Proof.
  intros Hcount Hfit. rewrite encodeLength_varint by done.
  rewrite store_all_fits; [done|lia|lia|apply varint_bytes; lia].
Qed.

Lemma getSignatureCountLength_varint count :
  0 <= count < 2097152 ->
  getSignatureCountLength count = Z.of_nat (length (varint encodeLength_rounds count)).
Proof.
  intros Hcount. rewrite varint_length by lia. unfold getSignatureCountLength.
  repeat case_decide; lia.
Qed.

Lemma getSignatureCountLength_range count : 1 <= getSignatureCountLength count <= 3.
Proof. unfold getSignatureCountLength. repeat case_decide; lia. Qed.

Context `{Web3}.

(** What web3.js throws while it compiles the message is thrown by the
    serializer, which has written nothing by then; and a property of the
    serializer for every message that web3.js returns holds of the call. *)
Lemma customSerializeTransaction_compile_fails tx err :
  compileMessage_serialize tx = Throw err -> customSerializeTransaction tx = Throw err.
Proof. intros Hthrow. unfold customSerializeTransaction. by rewrite Hthrow. Qed.

Lemma customSerializeTransaction_compiled tx (k : Buffer -> Run Buffer) :
  (forall message, compileMessage_serialize tx = Ret message ->
     customSerializeTransaction tx = k message) ->
  customSerializeTransaction tx = (message ← compileMessage_serialize tx; k message).
Proof.
  intros Hk. destruct (compileMessage_serialize tx) as [message|err|] eqn:Hmessage.
  - by apply Hk.
  - unfold customSerializeTransaction. by rewrite Hmessage.
  - unfold customSerializeTransaction. by rewrite Hmessage.
Qed.

(** The serializer on a fully signed transaction with fewer than 2^21
    signatures: prefix, signatures, message, and nothing else. *)
Lemma customSerializeTransaction_layout tx message :
  compileMessage_serialize tx = Ret message ->
  Z.of_nat (length (signatures tx)) < 2097152 ->
  Forall signed64 (signatures tx) ->
  customSerializeTransaction tx
  = Ret (varint encodeLength_rounds (Z.of_nat (length (signatures tx)))
           ++ signature_block (signatures tx) ++ message).
Proof.
  intros Hmessage Hcount Hsigned. unfold customSerializeTransaction.
  rewrite Hmessage. cbn [mbind Run_bind].
  set (count := Z.of_nat (length (signatures tx))) in *.
  assert (0 <= count < 2097152) as Hc by lia.
  pose proof (getSignatureCountLength_varint count Hc) as Hlen.
  pose proof (getSignatureCountLength_range count) as Hrange.
  set (prefix := varint encodeLength_rounds count) in *.
  set (size := getSignatureCountLength count + count * 64 + Z.of_nat (length message)).
  assert (length (Buffer_alloc size) = Z.to_nat size) as Halloc by apply Buffer_alloc_length.
  rewrite encodeLength_fits by (fold prefix; lia).
  fold prefix. cbn [mbind Run_bind].
  rewrite write_signatures_app; [|lia|rewrite length_drop; lia|done].
  cbn [mbind Run_bind]. rewrite (app_assoc prefix).
  rewrite Buffer_set_app.
  - rewrite drop_ge by (rewrite !length_drop; lia).
    by rewrite app_nil_r, <- app_assoc.
  - rewrite length_app, signature_block_length by done. lia.
  - rewrite !length_drop. lia.
Qed.

Lemma varint_length_range count :
  0 <= count < 2^31 -> (1 <= length (varint encodeLength_rounds count) <= 5)%nat.
Proof.
  intros Hcount. pose proof (varint_length count Hcount) as Hlen.
  repeat case_decide; lia.
Qed.


(** From 2^21 signatures on the prefix takes a fourth byte that
    [getSignatureCountLength] did not count: the last write falls off the
    buffer. *)
Lemma customSerializeTransaction_overflow tx message :
  compileMessage_serialize tx = Ret message ->
  2097152 <= Z.of_nat (length (signatures tx)) < 268435456 ->
  Forall signed64 (signatures tx) ->
  (1 <= length message)%nat ->
  customSerializeTransaction tx = Throw (RangeError "offset is out of bounds").
Proof.
  intros Hcompiled Hcount Hsigned Hmessage. unfold customSerializeTransaction.
  rewrite Hcompiled. cbn [mbind Run_bind].
  set (count := Z.of_nat (length (signatures tx))) in *.
  pose proof (varint_length count ltac:(lia)) as Hlen.
  rewrite !decide_False, decide_True in Hlen by lia.
  assert (getSignatureCountLength count = 3) as Hthree.
  { unfold getSignatureCountLength. rewrite !decide_False by lia. done. }
  set (prefix := varint encodeLength_rounds count) in *.
  rewrite Hthree.
  set (size := 3 + count * 64 + Z.of_nat (length message)).
  assert (length (Buffer_alloc size) = Z.to_nat size) as Halloc by apply Buffer_alloc_length.
  rewrite encodeLength_fits by (fold prefix; lia).
  fold prefix. cbn [mbind Run_bind].
  rewrite write_signatures_app; [|lia|rewrite length_drop; lia|done].
  cbn [mbind Run_bind]. apply Buffer_set_overflow.
  rewrite !length_app, signature_block_length, !length_drop by done. lia.
Qed.

(** From 2^31 signatures on the 32-bit reading of the count is negative
    and [encodeLength] does not return. *)
Lemma customSerializeTransaction_diverges tx message :
  compileMessage_serialize tx = Ret message ->
  ToInt32 (Z.of_nat (length (signatures tx))) < 0 ->
  customSerializeTransaction tx = NoReturn.
Proof.
  intros Hmessage Hneg. unfold customSerializeTransaction, encodeLength.
  rewrite Hmessage. cbn [mbind Run_bind].
  by rewrite encodeLength_loop_negative.
Qed.

End Serializer.

(** ** The stand-in for web3.js on two examples *)

(** It compiles a transaction signed any number of times by its fee
    payer, such as the example with 2^21 signatures. *)
Lemma compile_signed_slots (n : nat) :
  Examples.compile
    (mkTransaction [] (Some Examples.recent) (replicate (S n) Examples.signed_slot))
  = Ret [1; 0; 1; 0].
Proof.
  unfold Examples.compile, Examples.account_keys.
  cbn [recentBlockhash signatures instructions replicate take fmap list_fmap concat app].
  rewrite decide_False by done.
  destruct (list_find _ _) as [[i sig]|] eqn:Hfind; [|reflexivity].
  apply list_find_Some in Hfind as (Hslot & Hunknown & _).
  destruct Hunknown. destruct i as [|i]; cbn [lookup list_lookup] in Hslot.
  - injection Hslot as <-. apply list_elem_of_here.
  - apply lookup_replicate in Hslot as [-> _]. apply list_elem_of_here.
Qed.

Lemma compile_oversigned :
  @compileMessage_serialize Examples.web3 Examples.oversigned = Ret [1; 0; 1; 0].
Proof.
  change (@compileMessage_serialize Examples.web3) with Examples.compile.
  unfold Examples.oversigned.
  assert (Z.to_nat 2097152 = S (Z.to_nat 2097151)) as -> by lia.
  apply compile_signed_slots.
Qed.

(** The serializer on [new Transaction()]: web3.js refuses to compile a
    message without blockhash. *)
Lemma customSerializeTransaction_new_Transaction :
  @customSerializeTransaction Examples.web3 new_Transaction
  = Throw (Error "Transaction recentBlockhash required").
Proof. by apply customSerializeTransaction_compile_fails. Qed.

(** ** Loops and batches *)

Section Loops.

Lemma for_loop_nat {S : Type} (body : Z -> S -> S) (s : S) lo (k : nat) :
  for_loop lo (lo + Z.of_nat (Datatypes.S k)) body s
  = body (lo + Z.of_nat k) (for_loop lo (lo + Z.of_nat k) body s).
Proof.
  unfold for_loop.
  replace (lo + Z.of_nat (Datatypes.S k) - lo) with (Z.of_nat (Datatypes.S k)) by lia.
  replace (lo + Z.of_nat k - lo) with (Z.of_nat k) by lia.
  by rewrite seqZ_S, foldl_snoc.
Qed.

Lemma for_loop_none {S : Type} (body : Z -> S -> S) (s : S) lo hi :
  hi <= lo -> for_loop lo hi body s = s.
Proof. intros Hle. unfold for_loop. by rewrite seqZ_nil by lia. Qed.

(** A loop that pushes [f i] at every round builds the list of the
    [f i]. *)
Lemma for_loop_push {A : Type} (f : Z -> A) lo (k : nat) (acc : list A) :
  for_loop lo (lo + Z.of_nat k) (fun i acc => acc ++ [f i]) acc
  = acc ++ (f <$> seqZ lo (Z.of_nat k)).
Proof.
  induction k as [|k IH].
  - rewrite for_loop_none by lia. by rewrite app_nil_r.
  - rewrite for_loop_nat, IH, seqZ_S, fmap_app, <- app_assoc. done.
Qed.

Lemma transfer_instructions_replicate count fromPubkey toPubkey lamports :
  transfer_instructions count fromPubkey toPubkey lamports
  = replicate (Z.to_nat count) (SystemProgram_transfer fromPubkey toPubkey lamports).
Proof.
  unfold transfer_instructions.
  destruct (decide (count <= 0)) as [Hle|Hpos].
  - rewrite for_loop_none by lia. by replace (Z.to_nat count) with 0%nat by lia.
  - replace count with (0 + Z.of_nat (Z.to_nat count)) at 1 by lia.
    rewrite (for_loop_push (fun _ => SystemProgram_transfer fromPubkey toPubkey lamports)).
    cbn [app]. rewrite (const_fmap _ _ (SystemProgram_transfer fromPubkey toPubkey lamports)) by done.
    by rewrite length_seqZ, Nat2Z.id.
Qed.

Lemma at_index_drop {A : Type} (l : list A) lo (k : nat) :
  0 <= lo -> at_index l (lo + Z.of_nat k) = drop (Z.to_nat lo) l !! k.
Proof.
  intros Hlo. unfold at_index. rewrite decide_True by lia.
  rewrite lookup_drop. f_equal. lia.
Qed.

Lemma fill_transaction_nat allInstructions lo (k : nat) :
  0 <= lo ->
  fill_transaction allInstructions lo (lo + Z.of_nat k)
  = mkTransaction (take k (drop (Z.to_nat lo) allInstructions)) None [].
Proof.
  intros Hlo. unfold fill_transaction. induction k as [|k IH].
  - rewrite for_loop_none by lia. by rewrite take_0.
  - rewrite for_loop_nat, IH, at_index_drop by done.
    destruct (drop (Z.to_nat lo) allInstructions !! k) as [ix|] eqn:Hix.
    + by rewrite (take_S_r _ _ ix).
    + apply lookup_ge_None in Hix. by rewrite !take_ge by lia.
Qed.

Lemma fill_transaction_slice allInstructions batchSize i :
  0 <= i -> 0 <= batchSize ->
  fill_transaction allInstructions (i * batchSize) ((i + 1) * batchSize)
  = mkTransaction (batch_slice allInstructions batchSize i) None [].
Proof.
  intros Hi Hb. unfold batch_slice.
  replace ((i + 1) * batchSize) with (i * batchSize + Z.of_nat (Z.to_nat batchSize)) by lia.
  apply fill_transaction_nat. lia.
Qed.

End Loops.

Section Partition.

Lemma ceil_div a b : 0 < b -> - (- a / b) = (a + b - 1) / b.
Proof. intros Hb. Z.div_mod_to_equations. nia. Qed.

Lemma num_batches_ceil len batchSize :
  0 < batchSize ->
  Z.of_nat (num_batches len batchSize) = (Z.of_nat len + batchSize - 1) / batchSize.
Proof.
  intros Hb. unfold num_batches. rewrite ceil_div by done.
  rewrite Z2Nat.id; [done|]. apply Z.div_pos; lia.
Qed.

(** The defining property of the ceiling of [len / batchSize]. *)
Lemma num_batches_bounds len batchSize :
  0 < batchSize ->
  (Z.of_nat (num_batches len batchSize) - 1) * batchSize < Z.of_nat len
    <= Z.of_nat (num_batches len batchSize) * batchSize.
Proof.
  intros Hb. rewrite num_batches_ceil by done.
  Z.div_mod_to_equations. nia.
Qed.

Lemma slice_transactions_batches allInstructions batchSize :
  0 < batchSize ->
  slice_transactions allInstructions batchSize
  = Ret ((fun i => mkTransaction (batch_slice allInstructions batchSize i) None [])
           <$> seqZ 0 (Z.of_nat (num_batches (length allInstructions) batchSize))).
Proof.
  intros Hb. unfold slice_transactions, Math_ceil_div.
  rewrite decide_False by lia. cbn [loop_bound].
  pose proof (num_batches_ceil (length allInstructions) batchSize Hb) as Hceil.
  assert (0 <= (Z.of_nat (length allInstructions) + batchSize - 1) / batchSize) as Hpos
    by (apply Z.div_pos; lia).
  replace (- (- Z.of_nat (length allInstructions) / batchSize))
    with (0 + Z.of_nat (num_batches (length allInstructions) batchSize))
    by (rewrite Hceil, ceil_div by done; lia).
  rewrite (for_loop_push
             (fun i => fill_transaction allInstructions (i * batchSize) ((i + 1) * batchSize))).
  cbn [app]. f_equal. apply list_fmap_ext.
  intros k i Hi%lookup_seqZ. apply fill_transaction_slice; lia.
Qed.

Lemma concat_batch_slices (operations : list TransactionInstruction) batchSize (k : nat) :
  0 < batchSize ->
  concat (batch_slice operations batchSize <$> seqZ 0 (Z.of_nat k))
  = take (k * Z.to_nat batchSize) operations.
Proof.
  intros Hb. induction k as [|k IH]; [done|].
  rewrite seqZ_S, fmap_app, concat_app, IH.
  cbn [fmap list_fmap concat]. rewrite app_nil_r. unfold batch_slice.
  replace (Z.to_nat ((0 + Z.of_nat k) * batchSize)) with (k * Z.to_nat batchSize)%nat by lia.
  rewrite take_take_drop. f_equal. lia.
Qed.

(** A list of [k * batchSize] equal transfers is sliced into [k] full
    batches. *)
Lemma slice_transactions_replicate (k : nat) batchSize ix :
  0 < batchSize ->
  slice_transactions (replicate (k * Z.to_nat batchSize) ix) batchSize
  = Ret (replicate k (mkTransaction (replicate (Z.to_nat batchSize) ix) None [])).
Proof.
  intros Hb. rewrite slice_transactions_batches, length_replicate by done.
  assert (num_batches (k * Z.to_nat batchSize) batchSize = k) as ->.
  { apply Nat2Z.inj. rewrite num_batches_ceil by done.
    symmetry. apply Z.div_unique with (batchSize - 1); nia. }
  f_equal.
  rewrite (const_fmap _ _ (mkTransaction (replicate (Z.to_nat batchSize) ix) None [])).
  - by rewrite length_seqZ, Nat2Z.id.
  - intros i j [-> Hj]%lookup_seqZ. f_equal. unfold batch_slice.
    rewrite drop_replicate, take_replicate. f_equal. nia.
Qed.

(** X8.  [generateTransactions] with a batch size of at least one returns
    exactly one transaction: [batchSize] transfers of 10000 lamports from
    the funding wallet to the destination, without blockhash and without
    signature slots. *)
Lemma generateTransactions_single batchSize fundingWallet destinationWallet :
  1 <= batchSize ->
  generateTransactions batchSize fundingWallet destinationWallet
  = Ret [mkTransaction
           (replicate (Z.to_nat batchSize)
              (SystemProgram_transfer fundingWallet destinationWallet 10000))
           None []].
Proof.
  intros Hb. unfold generateTransactions. rewrite transfer_instructions_replicate.
  replace (Z.to_nat batchSize) with (1 * Z.to_nat batchSize)%nat at 1 by lia.
  by rewrite slice_transactions_replicate by lia.
Qed.

(** X9.  The older [generateTransactions] with a batch size of at least
    one returns exactly five transactions, each of [batchSize] transfers of
    500000 lamports, without blockhash and without signature slots. *)
Lemma Part001_generateTransactions_five batchSize fundingWallet destinationWallet :
  1 <= batchSize ->
  Part001.generateTransactions batchSize fundingWallet destinationWallet
  = Ret (replicate 5
           (mkTransaction
              (replicate (Z.to_nat batchSize)
                 (SystemProgram_transfer fundingWallet destinationWallet 500000))
              None [])).
Proof.
  intros Hb. unfold Part001.generateTransactions. rewrite transfer_instructions_replicate.
  replace (Z.to_nat (batchSize * 5)) with (5 * Z.to_nat batchSize)%nat by lia.
  by rewrite slice_transactions_replicate by lia.
Qed.

End Partition.

Section Generators.
Context `{Web3}.

Lemma for_loop_run_none {S : Type} (body : Z -> S -> Run S) (s : S) lo hi :
  hi <= lo -> for_loop_run lo hi body s = Ret s.
Proof. intros Hle. unfold for_loop_run. by rewrite seqZ_nil by lia. Qed.

Lemma Math_ceil_div_zero b : loop_bound (Math_ceil_div 0 b) = Some 0.
Proof.
  unfold Math_ceil_div. destruct (decide (b = 0)) as [->|Hb]; [done|].
  cbn. by rewrite Z.div_0_l by done.
Qed.

(** The signed transaction of [generateRawTransactions] on the wire: the
    count byte 1, the signature, the message. *)
Lemma customSerializeTransaction_single batchSize fundingWallet destinationWallet blockhash
    sig :
  length sig = 64%nat ->
  customSerializeTransaction
    (single_transaction batchSize fundingWallet destinationWallet blockhash (Some sig))
  = (message ← compileMessage_serialize
                 (single_transaction batchSize fundingWallet destinationWallet blockhash
                    (Some sig));
     Ret (1 :: sig ++ message)).
Proof.
  intros Hsig. apply customSerializeTransaction_compiled. intros message Hmessage.
  rewrite (customSerializeTransaction_layout _ message Hmessage).
  - unfold single_transaction, signature_block, signature_bytes.
    cbn [signatures length Z.of_nat fmap list_fmap concat signature].
    change (varint encodeLength_rounds (Z.of_nat 1)) with [1].
    by rewrite app_nil_r.
  - cbn. lia.
  - constructor; [|constructor]. by unfold signed64.
Qed.

(** The steps of [generateRawTransactions] for a positive batch size: the
    blockhash request, the compilation of the one transaction for signing,
    the signing, the compilation of the signed transaction, and the one
    buffer. *)
Lemma generateRawTransactions_run batchSize fundingWallet destinationWallet connection :
  1 <= batchSize ->
  generateRawTransactions batchSize fundingWallet destinationWallet connection
  = (blockhash ← getLatestBlockhash connection;
     signData ← compileMessage_serialize
                  (single_transaction batchSize fundingWallet destinationWallet blockhash
                     None);
     sig ← nacl_sign signData (secretKey fundingWallet);
     message ← compileMessage_serialize
                 (single_transaction batchSize fundingWallet destinationWallet blockhash
                    (Some sig));
     Ret [1 :: sig ++ message],
     [GetLatestBlockhash]).
Proof.
  intros Hb. unfold generateRawTransactions. f_equal.
  destruct (getLatestBlockhash connection) as [blockhash| |]; [|done..].
  cbn [mbind Run_bind]. unfold single_transaction.
  rewrite transfer_instructions_replicate, length_replicate.
  unfold Math_ceil_div. rewrite decide_False by lia. rewrite Z2Nat.id by lia.
  replace (- (- batchSize / batchSize)) with 1.
  2:{ rewrite ceil_div by lia. apply Z.div_unique with (batchSize - 1); lia. }
  cbn [loop_bound]. unfold for_loop_run. change (seqZ 0 (1 - 0)) with [0].
  cbn [foldl mbind Run_bind app].
  replace (0 * batchSize) with 0 by lia.
  replace ((0 + 1) * batchSize) with (0 + Z.of_nat (Z.to_nat batchSize)) by lia.
  rewrite fill_transaction_nat by lia. change (Z.to_nat 0) with 0%nat. rewrite drop_0.
  rewrite take_ge by (rewrite length_replicate; lia).
  unfold tx_sign, set_recentBlockhash. cbn [instructions recentBlockhash signatures].
  destruct (compileMessage_serialize _) as [signData| |]; [|done..]. cbn [mbind Run_bind].
  destruct (nacl_sign signData (secretKey fundingWallet)) as [sig| |] eqn:Hsig; [|done..].
  cbn [mbind Run_bind]. apply nacl_sign_length in Hsig.
  pose proof (customSerializeTransaction_single batchSize fundingWallet destinationWallet
                blockhash sig Hsig) as Hwire.
  unfold single_transaction in Hwire. rewrite transfer_instructions_replicate in Hwire.
  rewrite Hwire. by destruct (compileMessage_serialize _).
Qed.

(** Whenever [generateRawTransactions] returns for a positive batch size,
    each of its steps has returned and the result is the one buffer. *)
Lemma generateRawTransactions_returns batchSize fundingWallet destinationWallet connection
    buffers :
  1 <= batchSize ->
  (generateRawTransactions batchSize fundingWallet destinationWallet connection).1
  = Ret buffers ->
  exists blockhash signData sig message,
    getLatestBlockhash connection = Ret blockhash
    /\ compileMessage_serialize
         (single_transaction batchSize fundingWallet destinationWallet blockhash None)
       = Ret signData
    /\ nacl_sign signData (secretKey fundingWallet) = Ret sig
    /\ length sig = 64%nat
    /\ compileMessage_serialize
         (single_transaction batchSize fundingWallet destinationWallet blockhash (Some sig))
       = Ret message
    /\ buffers = [1 :: sig ++ message].
Proof.
  intros Hb. rewrite generateRawTransactions_run by done. cbn [fst].
  destruct (getLatestBlockhash connection) as [blockhash| |]; [|done..].
  cbn [mbind Run_bind].
  destruct (compileMessage_serialize
              (single_transaction batchSize fundingWallet destinationWallet blockhash None))
    as [signData| |] eqn:HsignData; [|done..].
  cbn [mbind Run_bind].
  destruct (nacl_sign signData (secretKey fundingWallet)) as [sig| |] eqn:Hsig; [|done..].
  cbn [mbind Run_bind].
  destruct (compileMessage_serialize
              (single_transaction batchSize fundingWallet destinationWallet blockhash
                 (Some sig)))
    as [message| |] eqn:Hmessage; [|done..].
  cbn [mbind Run_bind]. intros [= <-].
  exists blockhash, signData, sig, message. split_and!; try done.
  by apply nacl_sign_length in Hsig.
Qed.

(** When the signing throws, [generateRawTransactions] throws the same
    error, having made the blockhash request only. *)
Lemma generateRawTransactions_sign_fails batchSize fundingWallet destinationWallet connection
    blockhash err :
  1 <= batchSize ->
  getLatestBlockhash connection = Ret blockhash ->
  tx_sign (single_transaction batchSize fundingWallet destinationWallet blockhash None)
    fundingWallet = Throw err ->
  generateRawTransactions batchSize fundingWallet destinationWallet connection
  = (Throw err, [GetLatestBlockhash]).
Proof.
  intros Hb Hblockhash. rewrite generateRawTransactions_run by done.
  rewrite Hblockhash. cbn [mbind Run_bind].
  unfold tx_sign, single_transaction. cbn [instructions recentBlockhash].
  destruct (compileMessage_serialize _) as [signData| |]; cbn [mbind Run_bind];
    [|by intros [= ->]|done].
  destruct (nacl_sign signData (secretKey fundingWallet)) as [sig| |]; cbn [mbind Run_bind];
    [done|by intros [= ->]|done].
Qed.

End Generators.

(** ** The sender *)

Section Sender.

(** With [retries >= 1] the loop body runs once: the [try] block either
    returns or throws, and the [catch] block rethrows whatever was thrown,
    so the statement [i++] and the second round are never reached. *)
Lemma retry_loop_once attempt retries :
  1 <= retries ->
  retry_loop (S (Z.to_nat retries)) attempt retries 0 0 [] = attempt 0%nat.
Proof.
  intros Hretries. cbn [retry_loop]. rewrite decide_True by lia.
  destruct (attempt 0%nat) as [[signature|err|] calls]; cbn [app]; [done| |done].
  unfold catch_branches. by destruct (instanceof_SendTransactionError err).
Qed.

Lemma sendRawTransactionWithRetry_once connection rawTransaction retries :
  1 <= retries ->
  sendRawTransactionWithRetry connection rawTransaction retries
  = try_send connection rawTransaction 0.
Proof. apply retry_loop_once. Qed.

Lemma sendTransactionWithRetry_once connection transaction retries :
  1 <= retries ->
  sendTransactionWithRetry connection transaction retries
  = try_send_and_confirm connection transaction 0.
Proof. apply retry_loop_once. Qed.

Lemma try_send_submissions connection rawTransaction sent :
  submissions (try_send connection rawTransaction sent).2 = 1%nat.
Proof.
  unfold try_send. by destruct (sendRawTransaction connection rawTransaction sent).
Qed.

Lemma sendRawTransactionWithRetry_submissions connection rawTransaction retries :
  1 <= retries ->
  submissions (sendRawTransactionWithRetry connection rawTransaction retries).2 = 1%nat.
Proof.
  intros Hretries. rewrite sendRawTransactionWithRetry_once by done.
  apply try_send_submissions.
Qed.

(** Without rounds ([retries <= 0]) nothing is submitted and the final
    [throw] is reached. *)
Lemma sendRawTransactionWithRetry_no_rounds connection rawTransaction retries :
  retries <= 0 ->
  sendRawTransactionWithRetry connection rawTransaction retries
  = (Throw (Error ("Failed to send transaction after " +:+ pretty retries +:+ " attempts")),
     []).
Proof.
  intros Hretries. unfold sendRawTransactionWithRetry. cbn [retry_loop].
  by rewrite decide_False by lia.
Qed.

(** The fuel of [sendRawTransactionWithRetry] never runs out on an
    endpoint that answers. *)
Lemma sendRawTransactionWithRetry_returns connection rawTransaction retries :
  (forall k, sendRawTransaction connection rawTransaction k <> NoReturn) ->
  (forall signature, confirmTransaction connection signature <> NoReturn) ->
  (sendRawTransactionWithRetry connection rawTransaction retries).1 <> NoReturn.
Proof.
  intros Hsend Hconfirm.
  destruct (decide (1 <= retries)) as [Hretries|Hnone].
  - rewrite sendRawTransactionWithRetry_once by done. unfold try_send.
    specialize (Hsend 0%nat).
    destruct (sendRawTransaction connection rawTransaction 0) as [signature|err|]; [|done..].
    specialize (Hconfirm signature). cbn.
    by destruct (confirmTransaction connection signature).
  - by rewrite sendRawTransactionWithRetry_no_rounds by lia.
Qed.

End Sender.

(** ** The dispatcher *)

Section Dispatcher.

Lemma settled_new_Promise_resolve (r : Run string) :
  settled (new_Promise_resolve (then_call (promise_of r)))
  = match r with
    | Ret signature => Some (fulfilled signature)
    | _ => None
    end.
Proof. by destruct r. Qed.

(** The delays play no part in what the promises end as. *)
Lemma settled_staggered {A : Type} (send : A -> Run string * list RpcCall)
    (delay_of : nat -> Z) (messages : list A) :
  mapM settled
    (promise <$> imap (fun i message =>
       mkStaggered (delay_of i) (new_Promise_resolve (then_call (promise_of (send message).1))))
       messages)
  = mapM (fun message =>
            match (send message).1 with
            | Ret signature => Some (fulfilled signature)
            | _ => None
            end) messages.
Proof.
  revert delay_of.
  induction messages as [|message rest IH]; intros delay_of; [reflexivity|].
  rewrite imap_cons, fmap_cons. cbn [promise].
  change (mapM ?f (?x :: ?l)) with (y ← f x; k ← mapM f l; mret (y :: k)).
  rewrite settled_new_Promise_resolve, <- (IH (delay_of ∘ S)).
  destruct (send message).1; reflexivity.
Qed.

(** The timers ask for the delays [0, 3500, 7000, ...]. *)
Lemma stagger_delay {A : Type} (send : A -> Run string * list RpcCall) (messages : list A) i
    timer :
  stagger send messages !! i = Some timer -> delay timer = Z.of_nat i * TX_INTERVAL.
Proof.
  unfold stagger. rewrite list_lookup_imap.
  destruct (messages !! i); [|done]. by intros [= <-].
Qed.

Lemma executeRawTransactions_mapM connection rawTransactionList :
  executeRawTransactions connection rawTransactionList
  = match mapM (send_outcome connection) rawTransactionList with
    | Some results => Ret results
    | None => NoReturn
    end.
Proof.
  unfold executeRawTransactions, Promise_allSettled, stagger.
  by rewrite (settled_staggered _ (fun i => Z.of_nat i * TX_INTERVAL)).
Qed.

(** A send that fails leaves its promise pending: the call does not
    return. *)
Lemma executeRawTransactions_hangs connection rawTransactionList rawTransaction err :
  rawTransaction ∈ rawTransactionList ->
  (sendRawTransactionWithRetry connection rawTransaction default_retries).1 = Throw err ->
  executeRawTransactions connection rawTransactionList = NoReturn.
Proof.
  intros Hin Hthrow. rewrite executeRawTransactions_mapM.
  rewrite (proj2 (mapM_None _ _)); [done|].
  apply Exists_exists. exists rawTransaction. split; [done|].
  unfold send_outcome. by rewrite Hthrow.
Qed.

(** When the call returns, every outcome is a fulfilment, one per
    message and in the order of the messages. *)
Lemma executeRawTransactions_all_fulfilled connection rawTransactionList results :
  executeRawTransactions connection rawTransactionList = Ret results ->
  Forall2 (fun rawTransaction result =>
             exists signature,
               (sendRawTransactionWithRetry connection rawTransaction default_retries).1
               = Ret signature
               /\ result = fulfilled signature)
    rawTransactionList results.
Proof.
  rewrite executeRawTransactions_mapM.
  destruct (mapM (send_outcome connection) rawTransactionList) as [results'|] eqn:Hm; [|done].
  intros [= <-]. apply mapM_Some in Hm.
  eapply Forall2_impl; [exact Hm|]. intros rawTransaction result. unfold send_outcome.
  destruct (sendRawTransactionWithRetry _ _ _).1 as [signature| |]; [|done..].
  intros [= <-]. eauto.
Qed.

End Dispatcher.

(** * The claims *)

(** C3 (amended).  For every integer [n] with [0 <= n < 2^31],
    [encodeLength] returns; it writes 1 byte for [n < 128], 2 for
    [128 <= n < 16384] and 3 for [16384 <= n < 2097152]; and when the
    array has room for them, the bytes it leaves at [offset] decode, as a
    little-endian base-128 number with continuation bit 0x80, to [n], a
    single zero byte for [n = 0]. *)
Theorem encodeLength_roundtrip n array offset :
  0 <= n < 2^31 -> 0 <= offset ->
  exists array' len,
    encodeLength n array offset = Ret (array', len)
    /\ (n < 128 -> len = 1)
    /\ (128 <= n < 16384 -> len = 2)
    /\ (16384 <= n < 2097152 -> len = 3)
    /\ (offset + len <= Z.of_nat (length array) ->
        decodeLength (emitted array' offset len) = Some (n, Z.to_nat len)
        /\ (n = 0 -> emitted array' offset len = [0])).
Proof.
  intros Hn Hoffset. rewrite encodeLength_varint by done.
  pose proof (varint_length n Hn) as Hlen.
  set (bytes := varint encodeLength_rounds n) in *.
  exists (store_all array offset bytes), (Z.of_nat (length bytes)).
  split; [done|]. split_and!.
  - intros ?. by rewrite decide_True in Hlen by lia.
  - intros ?. by rewrite decide_False, decide_True in Hlen by lia.
  - intros ?. by rewrite !decide_False, decide_True in Hlen by lia.
  - intros Hfit.
    rewrite emitted_store_all; [|done..|apply varint_bytes; lia].
    rewrite Nat2Z.id. split.
    + apply (decodeLength_varint 4). change (2 ^ (7 * Z.of_nat 5)) with (2 ^ 35). lia.
    + by intros ->.
Qed.

Lemma encodeLength_roundtrip_witness :
  exists array' len,
    encodeLength 300 (Buffer_alloc 4) 1 = Ret (array', len)
    /\ (300 < 128 -> len = 1)
    /\ (128 <= 300 < 16384 -> len = 2)
    /\ (16384 <= 300 < 2097152 -> len = 3)
    /\ (1 + len <= Z.of_nat (length (Buffer_alloc 4)) ->
        decodeLength (emitted array' 1 len) = Some (300, Z.to_nat len)
        /\ (300 = 0 -> emitted array' 1 len = [0])).
Proof. apply (encodeLength_roundtrip 300 (Buffer_alloc 4) 1); lia. Defined.

Lemma encodeLength_wraps_at_32_bits :
  encodeLength 4294967296 (Buffer_alloc 8) 0 = Ret (Buffer_alloc 8, 1)
  /\ decodeLength (emitted (Buffer_alloc 8) 0 1) = Some (0, 1%nat)
  /\ encodeLength 2147483648 (Buffer_alloc 8) 0 = NoReturn.
Proof. split_and!; reflexivity. Qed.

Section SerializerClaims.
Context `{Web3}.

(** C5 (amended).  For every transaction with fewer than 2^21 signature
    slots, each holding a 64-byte signature, and for every message that
    web3.js compiles for it, [customSerializeTransaction] returns the bytes
    [encodeLength] writes for the signature count, then the signatures in
    signer order, then the serialized message; the length of the result is
    the sum of the three lengths, and no size limit is applied.  The only
    way not to return this buffer is an error of the compilation, which is
    passed on. *)
Theorem customSerializeTransaction_wire_layout tx :
  Z.of_nat (length (signatures tx)) < 2097152 ->
  Forall signed64 (signatures tx) ->
  exists prefix,
    (forall array, (length prefix <= length array)%nat ->
       encodeLength (Z.of_nat (length (signatures tx))) array 0
       = Ret (prefix ++ drop (length prefix) array, Z.of_nat (length prefix)))
    /\ decodeLength prefix = Some (Z.of_nat (length (signatures tx)), length prefix)
    /\ customSerializeTransaction tx
       = (serializedMessage ← compileMessage_serialize tx;
          Ret (prefix ++ signature_block (signatures tx) ++ serializedMessage))
    /\ (forall serializedMessage,
          length (prefix ++ signature_block (signatures tx) ++ serializedMessage)
          = (length prefix + 64 * length (signatures tx) + length serializedMessage)%nat).
Proof.
  intros Hcount Hsigned.
  exists (varint encodeLength_rounds (Z.of_nat (length (signatures tx)))). split_and!.
  - intros array Hfit. apply encodeLength_fits; [lia|done].
  - apply (decodeLength_varint 4). change (2 ^ (7 * Z.of_nat 5)) with (2 ^ 35). lia.
  - apply customSerializeTransaction_compiled. intros message Hmessage.
    by apply customSerializeTransaction_layout.
  - intros serializedMessage. rewrite !length_app, signature_block_length by done. lia.
Qed.


(** C10.  For every count [n] with [0 <= n < 2097152], [encodeLength]
    writes exactly [getSignatureCountLength n] bytes: that many bytes,
    which decode to [n], are stored from [offset] on, every other byte of
    the array is left as it was, and their number is what the call reports
    (also when the array is too short to take them).  Hence, for a fully
    signed transaction with [n] signature slots and the message web3.js
    compiled for it, every write of [customSerializeTransaction] lands
    inside the buffer allocated with [getSignatureCountLength n + 64 * n]
    bytes and the length of the message: the prefix takes the first bytes
    and leaves the zeros behind them, the signature loop overwrites the
    next [64 * n] and no [set] of it throws, the message overwrites all the
    rest, and no byte of the buffer is left over. *)
Theorem getSignatureCountLength_is_bytes_written n tx message :
  0 <= n < 2097152 ->
  exists bytes,
    Z.of_nat (length bytes) = getSignatureCountLength n
    /\ Forall (fun b => 0 <= b < 256) bytes
    /\ decodeLength bytes = Some (n, length bytes)
    /\ (forall array offset, exists array',
          encodeLength n array offset = Ret (array', getSignatureCountLength n)
          /\ length array' = length array)
    /\ (forall array offset,
          0 <= offset -> offset + getSignatureCountLength n <= Z.of_nat (length array) ->
          encodeLength n array offset
          = Ret (take (Z.to_nat offset) array ++ bytes
                   ++ drop (Z.to_nat (offset + getSignatureCountLength n)) array,
                 getSignatureCountLength n))
    /\ (Z.of_nat (length (signatures tx)) = n -> Forall signed64 (signatures tx) ->
        compileMessage_serialize tx = Ret message ->
        length (Buffer_alloc (getSignatureCountLength n + n * 64
                              + Z.of_nat (length message)))
        = (length bytes + 64 * length (signatures tx) + length message)%nat
        /\ encodeLength n
             (Buffer_alloc (getSignatureCountLength n + n * 64 + Z.of_nat (length message))) 0
           = Ret (bytes ++ replicate (64 * length (signatures tx) + length message) 0,
                  getSignatureCountLength n)
        /\ write_signatures (signatures tx)
             (bytes ++ replicate (64 * length (signatures tx) + length message) 0)
             (getSignatureCountLength n)
           = Ret (bytes ++ signature_block (signatures tx) ++ replicate (length message) 0,
                  getSignatureCountLength n + 64 * n)
        /\ Buffer_set
             (bytes ++ signature_block (signatures tx) ++ replicate (length message) 0)
             message (getSignatureCountLength n + 64 * n)
           = Ret (bytes ++ signature_block (signatures tx) ++ message)
        /\ customSerializeTransaction tx
           = Ret (bytes ++ signature_block (signatures tx) ++ message)
        /\ length (bytes ++ signature_block (signatures tx) ++ message)
           = length (Buffer_alloc (getSignatureCountLength n + n * 64
                                   + Z.of_nat (length message)))).
Proof.
  intros Hn. pose proof (getSignatureCountLength_varint n Hn) as Hlen.
  pose proof (getSignatureCountLength_range n) as Hrange.
  assert (Forall (fun b => 0 <= b < 256) (varint encodeLength_rounds n)) as Hbytes
    by (apply varint_bytes; lia).
  exists (varint encodeLength_rounds n).
  set (bytes := varint encodeLength_rounds n) in *.
  split; [done|]. split; [done|]. split.
  { apply (decodeLength_varint 4). change (2 ^ (7 * Z.of_nat 5)) with (2 ^ 35). lia. }
  split.
  { intros array offset. rewrite encodeLength_varint by lia. fold bytes. rewrite <- Hlen.
    eexists. split; [done|]. apply store_all_length. }
  split.
  { intros array offset Hoffset Hroom. rewrite encodeLength_varint by lia. fold bytes.
    rewrite store_all_fits by (done || lia).
    replace (Z.to_nat (offset + getSignatureCountLength n))
      with (Z.to_nat offset + length bytes)%nat by lia.
    by rewrite Hlen. }
  intros Hcount Hsigned Hmessage.
  assert (length (Buffer_alloc (getSignatureCountLength n + n * 64
                                + Z.of_nat (length message)))
          = (length bytes + 64 * length (signatures tx) + length message)%nat) as Halloc.
  { rewrite Buffer_alloc_length. lia. }
  assert (encodeLength n
            (Buffer_alloc (getSignatureCountLength n + n * 64 + Z.of_nat (length message))) 0
          = Ret (bytes ++ replicate (64 * length (signatures tx) + length message) 0,
                 getSignatureCountLength n)) as Hprefix.
  { rewrite encodeLength_fits by (fold bytes; lia). fold bytes. rewrite <- Hlen.
    unfold Buffer_alloc. rewrite drop_replicate.
    replace (Z.to_nat (getSignatureCountLength n + n * 64 + Z.of_nat (length message))
             - length bytes)%nat
      with (64 * length (signatures tx) + length message)%nat by lia.
    done. }
  assert (write_signatures (signatures tx)
            (bytes ++ replicate (64 * length (signatures tx) + length message) 0)
            (getSignatureCountLength n)
          = Ret (bytes ++ signature_block (signatures tx) ++ replicate (length message) 0,
                 getSignatureCountLength n + 64 * n)) as Hloop.
  { rewrite write_signatures_app; [|lia|rewrite length_replicate; lia|done].
    rewrite drop_replicate.
    replace (64 * length (signatures tx) + length message - 64 * length (signatures tx))%nat
      with (length message) by lia.
    by rewrite Hcount. }
  assert (Buffer_set
            (bytes ++ signature_block (signatures tx) ++ replicate (length message) 0)
            message (getSignatureCountLength n + 64 * n)
          = Ret (bytes ++ signature_block (signatures tx) ++ message)) as Hset.
  { rewrite (app_assoc bytes), Buffer_set_app.
    - rewrite drop_replicate, Nat.sub_diag. cbn [replicate].
      by rewrite app_nil_r, <- app_assoc.
    - rewrite length_app, signature_block_length by done. lia.
    - by rewrite length_replicate. }
  split_and!; try done.
  - rewrite (customSerializeTransaction_layout tx message) by (done || lia).
    by rewrite Hcount.
  - rewrite Halloc, !length_app, signature_block_length by done. lia.
Qed.

End SerializerClaims.

Lemma customSerializeTransaction_wire_layout_witness :
  exists prefix,
    (forall array, (length prefix <= length array)%nat ->
       encodeLength (Z.of_nat (length (signatures Examples.signed_twice))) array 0
       = Ret (prefix ++ drop (length prefix) array, Z.of_nat (length prefix)))
    /\ decodeLength prefix
       = Some (Z.of_nat (length (signatures Examples.signed_twice)), length prefix)
    /\ @customSerializeTransaction Examples.web3 Examples.signed_twice
       = (serializedMessage ← @compileMessage_serialize Examples.web3 Examples.signed_twice;
          Ret (prefix ++ signature_block (signatures Examples.signed_twice)
                 ++ serializedMessage))
    /\ (forall serializedMessage,
          length (prefix ++ signature_block (signatures Examples.signed_twice)
                    ++ serializedMessage)
          = (length prefix + 64 * length (signatures Examples.signed_twice)
             + length serializedMessage)%nat).
Proof.
  apply (@customSerializeTransaction_wire_layout Examples.web3 Examples.signed_twice).
  - vm_compute. reflexivity.
  - repeat constructor.
Defined.

Lemma customSerializeTransaction_overflows_at_2_21 :
  Forall signed64 (signatures Examples.oversigned)
  /\ length (signatures Examples.oversigned) = Z.to_nat 2097152
  /\ @customSerializeTransaction Examples.web3 Examples.oversigned
     = Throw (RangeError "offset is out of bounds").
Proof.
  assert (length (signatures Examples.oversigned) = Z.to_nat 2097152) as Hlength
    by apply length_replicate.
  assert (Forall signed64 (signatures Examples.oversigned)) as Hsigned.
  { apply Forall_replicate. reflexivity. }
  split_and!; [done..|].
  apply (@customSerializeTransaction_overflow Examples.web3 _ [1; 0; 1; 0]);
    [apply compile_oversigned| |done|cbn; lia].
  rewrite Hlength. lia.
Qed.



Lemma getSignatureCountLength_is_bytes_written_witness :
  exists bytes,
    Z.of_nat (length bytes) = getSignatureCountLength 2
    /\ Forall (fun b => 0 <= b < 256) bytes
    /\ decodeLength bytes = Some (2, length bytes)
    /\ (forall array offset, exists array',
          encodeLength 2 array offset = Ret (array', getSignatureCountLength 2)
          /\ length array' = length array)
    /\ (forall array offset,
          0 <= offset -> offset + getSignatureCountLength 2 <= Z.of_nat (length array) ->
          encodeLength 2 array offset
          = Ret (take (Z.to_nat offset) array ++ bytes
                   ++ drop (Z.to_nat (offset + getSignatureCountLength 2)) array,
                 getSignatureCountLength 2))
    /\ (Z.of_nat (length (signatures Examples.signed_twice)) = 2 ->
        Forall signed64 (signatures Examples.signed_twice) ->
        @compileMessage_serialize Examples.web3 Examples.signed_twice = Ret [1; 0; 1; 1] ->
        length (Buffer_alloc (getSignatureCountLength 2 + 2 * 64
                              + Z.of_nat (length [1; 0; 1; 1])))
        = (length bytes + 64 * length (signatures Examples.signed_twice)
           + length [1; 0; 1; 1])%nat
        /\ encodeLength 2
             (Buffer_alloc (getSignatureCountLength 2 + 2 * 64
                            + Z.of_nat (length [1; 0; 1; 1]))) 0
           = Ret (bytes ++ replicate (64 * length (signatures Examples.signed_twice)
                                      + length [1; 0; 1; 1]) 0,
                  getSignatureCountLength 2)
        /\ write_signatures (signatures Examples.signed_twice)
             (bytes ++ replicate (64 * length (signatures Examples.signed_twice)
                                  + length [1; 0; 1; 1]) 0)
             (getSignatureCountLength 2)
           = Ret (bytes ++ signature_block (signatures Examples.signed_twice)
                    ++ replicate (length [1; 0; 1; 1]) 0,
                  getSignatureCountLength 2 + 64 * 2)
        /\ Buffer_set
             (bytes ++ signature_block (signatures Examples.signed_twice)
                ++ replicate (length [1; 0; 1; 1]) 0)
             [1; 0; 1; 1] (getSignatureCountLength 2 + 64 * 2)
           = Ret (bytes ++ signature_block (signatures Examples.signed_twice)
                    ++ [1; 0; 1; 1])
        /\ @customSerializeTransaction Examples.web3 Examples.signed_twice
           = Ret (bytes ++ signature_block (signatures Examples.signed_twice)
                    ++ [1; 0; 1; 1])
        /\ length (bytes ++ signature_block (signatures Examples.signed_twice)
                     ++ [1; 0; 1; 1])
           = length (Buffer_alloc (getSignatureCountLength 2 + 2 * 64
                                   + Z.of_nat (length [1; 0; 1; 1])))).
Proof.
  apply (@getSignatureCountLength_is_bytes_written Examples.web3 2 Examples.signed_twice
           [1; 0; 1; 1]).
  lia.
Defined.

(** C4.  For every operation list and every [batchSize > 0] the slicing
    loop returns [ceil(L / batchSize)] transactions; their instruction
    lists, concatenated in order, are the original list; every transaction
    but the last holds exactly [batchSize] instructions; and transaction
    [i] holds [operations[i * batchSize : (i + 1) * batchSize]]. *)
Theorem slice_transactions_partition operations batchSize :
  0 < batchSize ->
  exists batches,
    slice_transactions operations batchSize = Ret batches
    /\ Z.of_nat (length batches) = (Z.of_nat (length operations) + batchSize - 1) / batchSize
    /\ concat (instructions <$> batches) = operations
    /\ (forall i tx, batches !! i = Some tx -> (i + 1 < length batches)%nat ->
          Z.of_nat (length (instructions tx)) = batchSize)
    /\ (forall i tx, batches !! i = Some tx ->
          instructions tx = batch_slice operations batchSize (Z.of_nat i)).
Proof.
  intros Hb. rewrite slice_transactions_batches by done.
  set (n := num_batches (length operations) batchSize).
  pose proof (num_batches_bounds (length operations) batchSize Hb) as Hbounds. fold n in Hbounds.
  eexists. split; [done|].
  assert (forall i tx,
            ((fun i => mkTransaction (batch_slice operations batchSize i) None [])
               <$> seqZ 0 (Z.of_nat n)) !! i = Some tx ->
            instructions tx = batch_slice operations batchSize (Z.of_nat i) /\ (i < n)%nat)
    as Hbatch.
  { intros i tx Hi. rewrite list_lookup_fmap in Hi.
    destruct (seqZ 0 (Z.of_nat n) !! i) as [j|] eqn:Hj; [|done].
    apply lookup_seqZ in Hj as [-> Hlt]. injection Hi as <-. cbn. split; [done|lia]. }
  split_and!.
  - rewrite length_fmap, length_seqZ, Nat2Z.id. by apply num_batches_ceil.
  - rewrite <- list_fmap_compose.
    rewrite (list_fmap_ext _ (batch_slice operations batchSize)) by done.
    rewrite concat_batch_slices by done. apply take_ge. nia.
  - intros i tx Hi Hlast. rewrite length_fmap, length_seqZ, Nat2Z.id in Hlast.
    destruct (Hbatch i tx Hi) as [-> _]. unfold batch_slice.
    rewrite length_take, length_drop. nia.
  - intros i tx Hi. by destruct (Hbatch i tx Hi).
Qed.

Lemma slice_transactions_partition_witness :
  exists batches,
    slice_transactions Examples.seven_operations 3 = Ret batches
    /\ Z.of_nat (length batches) = (Z.of_nat (length Examples.seven_operations) + 3 - 1) / 3
    /\ concat (instructions <$> batches) = Examples.seven_operations
    /\ (forall i tx, batches !! i = Some tx -> (i + 1 < length batches)%nat ->
          Z.of_nat (length (instructions tx)) = 3)
    /\ (forall i tx, batches !! i = Some tx ->
          instructions tx = batch_slice Examples.seven_operations 3 (Z.of_nat i)).
Proof. apply (slice_transactions_partition Examples.seven_operations 3). lia. Defined.

Section GeneratorClaims.
Context `{Web3}.

(** C7 (amended).  For every [batchSize <= 0], [generateTransactions]
    returns the empty list and throws nothing, and
    [generateRawTransactions] requests the latest blockhash and then, when
    the request succeeds, returns the empty list as well. *)
Theorem nonpositive_batchSize_is_not_rejected batchSize fundingWallet destinationWallet
    connection :
  batchSize <= 0 ->
  generateTransactions batchSize (publicKey fundingWallet) destinationWallet = Ret []
  /\ generateRawTransactions batchSize fundingWallet destinationWallet connection
     = (_ ← getLatestBlockhash connection; Ret [], [GetLatestBlockhash]).
Proof.
  intros Hle. unfold generateTransactions, generateRawTransactions, slice_transactions.
  rewrite transfer_instructions_replicate.
  replace (Z.to_nat batchSize) with 0%nat by lia. cbn [replicate length Z.of_nat].
  rewrite Math_ceil_div_zero. split; [by rewrite for_loop_none|].
  destruct (getLatestBlockhash connection); cbn [mbind Run_bind]; [|done..].
  by rewrite for_loop_run_none.
Qed.


End GeneratorClaims.

Lemma nonpositive_batchSize_is_not_rejected_witness :
  generateTransactions (-3) (publicKey Examples.wallet) Examples.payee = Ret []
  /\ @generateRawTransactions Examples.web3 (-3) Examples.wallet Examples.payee Examples.accepting
     = (_ ← getLatestBlockhash Examples.accepting; Ret [], [GetLatestBlockhash]).
Proof.
  apply (@nonpositive_batchSize_is_not_rejected Examples.web3 (-3) Examples.wallet Examples.payee
           Examples.accepting).
  lia.
Defined.

Lemma nonpositive_batchSize_returns_empty :
  generateTransactions 0 Examples.payer Examples.payee = Ret []
  /\ generateTransactions (-1) Examples.payer Examples.payee = Ret []
  /\ @generateRawTransactions Examples.web3 0 Examples.wallet Examples.payee Examples.accepting
     = (Ret [], [GetLatestBlockhash]).
Proof. split_and!; reflexivity. Qed.


(** C1 (the code departs from the claim).  With [retries = 5] and an
    endpoint that rejects every submission, the claim expects five
    submissions; with an endpoint that accepts the third submission it
    expects three submissions and that submission's signature.  Both
    senders submit once and reject with the first error. *)
Theorem sendRawTransactionWithRetry_gives_up_after_one_attempt :
  sendRawTransactionWithRetry Examples.always_rejecting [1; 2; 3] 5
  = (Throw (SendTransactionError "rejected 0"), [SendRawTransaction [1; 2; 3]])
  /\ submissions (sendRawTransactionWithRetry Examples.always_rejecting [1; 2; 3] 5).2 = 1%nat
  /\ sendRawTransactionWithRetry Examples.accepting_third [1; 2; 3] 5
     = (Throw (SendTransactionError "rejected 0"), [SendRawTransaction [1; 2; 3]])
  /\ submissions (sendRawTransactionWithRetry Examples.accepting_third [1; 2; 3] 5).2 = 1%nat
  /\ (sendTransactionWithRetry Examples.always_rejecting Examples.signed_twice 5).1
     = Throw (SendTransactionError "rejected 0")
  /\ submissions (sendTransactionWithRetry Examples.always_rejecting Examples.signed_twice 5).2
     = 1%nat
  /\ (sendTransactionWithRetry Examples.accepting_third Examples.signed_twice 5).1
     = Throw (SendTransactionError "rejected 0").
Proof. split_and!; reflexivity. Qed.

(** C2 (the code departs from the claim).  Ten messages, of which the
    endpoint rejects three: the claim expects ten outcomes, seven fulfilled
    and three rejected.  The promise of a rejected send is never settled,
    because its executor hands only [resolve] to [then]; so
    [Promise.allSettled] does not return. *)
Theorem executeRawTransactions_never_settles_after_a_failure :
  length Examples.ten_messages = 10%nat
  /\ length (filter (fun rawTransaction =>
                send_rejected Examples.rejecting_multiples_of_three rawTransaction = true)
              Examples.ten_messages) = 3%nat
  /\ length (filter (fun rawTransaction =>
                is_Some (send_outcome Examples.rejecting_multiples_of_three rawTransaction))
              Examples.ten_messages) = 7%nat
  /\ executeRawTransactions Examples.rejecting_multiples_of_three Examples.ten_messages = NoReturn.
Proof. split_and!; reflexivity. Qed.

(** * Further properties *)

(** ** The wire encoder beyond its intended range *)

Section EncoderEdges.

Lemma ToInt32_high count : 2^31 <= count < 2^32 -> ToInt32 count = count - 2^32.
Proof.
  intros Hc. unfold ToInt32.
  replace (count + 2^31) with (count - 2^31 + 1 * 2^32) by lia.
  rewrite Z.mod_add, Z.mod_small by lia. lia.
Qed.

Lemma ToInt32_periodic count k : ToInt32 (count + k * 2^32) = ToInt32 count.
Proof.
  unfold ToInt32. replace (count + k * 2^32 + 2^31) with (count + 2^31 + k * 2^32) by lia.
  by rewrite Z.mod_add by lia.
Qed.

Lemma store_lookup_other array index v (i : nat) :
  Z.of_nat i <> index -> store array index v !! i = array !! i.
Proof.
  intros Hne. unfold store. case_decide; [|done].
  apply list_lookup_insert_ne. lia.
Qed.

Lemma store_all_lookup_outside bytes : forall array index (i : nat),
  Z.of_nat i < index \/ index + Z.of_nat (length bytes) <= Z.of_nat i ->
  store_all array index bytes !! i = array !! i.
Proof.
  induction bytes as [|b bytes IH]; intros array index i Hout; [done|].
  cbn [store_all length] in *. rewrite IH by lia. apply store_lookup_other. lia.
Qed.

End EncoderEdges.

(** X1.  A count from 2^31 up to 2^32 reads as a negative 32-bit number:
    the loop of [encodeLength] then never ends, whatever fuel it is
    given. *)
Theorem encodeLength_loops_forever fuel count array offset :
  2^31 <= count < 2^32 ->
  encodeLength_loop fuel count 0 array offset = NoReturn
  /\ encodeLength count array offset = NoReturn.
Proof.
  intros Hcount.
  assert (ToInt32 count < 0) as Hneg by (rewrite ToInt32_high; lia).
  split; [|unfold encodeLength]; by apply encodeLength_loop_negative.
Qed.

Lemma encodeLength_loops_forever_witness :
  encodeLength_loop 1000 3000000000 0 (Buffer_alloc 8) 0 = NoReturn
  /\ encodeLength 3000000000 (Buffer_alloc 8) 0 = NoReturn.
Proof. apply (encodeLength_loops_forever 1000 3000000000 (Buffer_alloc 8) 0). lia. Defined.

(** X2.  For a count below 2^31, [encodeLength] reports between one and
    five bytes, keeps the length of the array (it neither grows it nor
    throws when the array is too short) and leaves every byte outside
    [offset .. offset + len - 1] as it was. *)
Theorem encodeLength_frame count array offset :
  0 <= count < 2^31 ->
  exists array' len,
    encodeLength count array offset = Ret (array', len)
    /\ 1 <= len <= 5
    /\ length array' = length array
    /\ (forall i : nat, Z.of_nat i < offset \/ offset + len <= Z.of_nat i ->
          array' !! i = array !! i).
Proof.
  intros Hcount. rewrite encodeLength_varint by done.
  pose proof (varint_length_range count Hcount) as Hlen.
  eexists _, _. split; [done|]. split_and!; try lia.
  - apply store_all_length.
  - intros i Hout. by apply store_all_lookup_outside.
Qed.

Lemma encodeLength_frame_witness :
  exists array' len,
    encodeLength 70000 [11; 12; 13; 14; 15; 16] 2 = Ret (array', len)
    /\ 1 <= len <= 5
    /\ length array' = length [11; 12; 13; 14; 15; 16]
    /\ (forall i : nat, Z.of_nat i < 2 \/ 2 + len <= Z.of_nat i ->
          array' !! i = [11; 12; 13; 14; 15; 16] !! i).
Proof. apply (encodeLength_frame 70000 [11; 12; 13; 14; 15; 16] 2). lia. Defined.

(** X3.  [encodeLength] sees a count only through its low 32 bits: adding
    a multiple of 2^32 to the count changes neither the bytes written nor
    the length reported. *)
Theorem encodeLength_modulo_2_32 count k array offset :
  encodeLength (count + k * 2^32) array offset = encodeLength count array offset.
Proof.
  unfold encodeLength.
  rewrite <- (encodeLength_loop_ToInt32 _ (count + k * 2^32)), ToInt32_periodic.
  apply encodeLength_loop_ToInt32.
Qed.



(** ** The serializer on unusual signature lists *)

Section SerializerEdges.

Lemma pad64_length bytes : (length bytes <= 64)%nat -> length (pad64 bytes) = 64%nat.
Proof. intros Hle. unfold pad64. rewrite length_app, length_replicate. lia. Qed.

Lemma padded_block_length sigs :
  Forall signed_at_most64 sigs -> length (padded_block sigs) = (64 * length sigs)%nat.
Proof.
  induction 1 as [|sig sigs Hsig _ IH]; [done|].
  unfold padded_block in *. cbn [fmap list_fmap concat length].
  rewrite length_app, IH, pad64_length; [lia|].
  unfold signed_at_most64 in Hsig. unfold signature_bytes.
  by destruct (signature sig).
Qed.

(** The signature loop on a zeroed buffer: a short signature leaves the
    rest of its slot zero. *)
Lemma write_signatures_padded sigs : forall pre (room : nat) offset,
  offset = Z.of_nat (length pre) -> (64 * length sigs <= room)%nat ->
  Forall signed_at_most64 sigs ->
  write_signatures sigs (pre ++ replicate room 0) offset
  = Ret (pre ++ padded_block sigs ++ replicate (room - 64 * length sigs) 0,
         offset + 64 * Z.of_nat (length sigs)).
Proof.
  induction sigs as [|sig sigs IH]; intros pre room offset Hoff Hroom Hsigs.
  - cbn. by rewrite Z.add_0_r, Nat.sub_0_r.
  - apply Forall_cons in Hsigs as [Hsig Hsigs]. cbn [write_signatures].
    unfold signed_at_most64 in Hsig. unfold padded_block. cbn [fmap list_fmap concat].
    unfold signature_bytes at 1.
    destruct (signature sig) as [bytes|]; [|done]. cbn [length] in *.
    rewrite Buffer_set_app by (done || rewrite length_replicate; lia).
    cbn [mbind Run_bind]. rewrite drop_replicate.
    replace (room - length bytes)%nat with ((64 - length bytes) + (room - 64))%nat by lia.
    rewrite replicate_add, !app_assoc, <- (app_assoc pre). fold (pad64 bytes).
    rewrite IH; [| rewrite length_app, pad64_length; lia | lia | done].
    fold (padded_block sigs). rewrite <- !app_assoc.
    replace (room - 64 * S (length sigs))%nat with (room - 64 - 64 * length sigs)%nat by lia.
    f_equal. f_equal. lia.
Qed.

(** The signature loop when the last signature does not fit. *)
Lemma write_signatures_overflow done : forall last pre rest offset,
  offset = Z.of_nat (length pre) ->
  (64 * length done <= length rest < 64 * length done + 64)%nat ->
  Forall signed64 done -> signed64 last ->
  write_signatures (done ++ [last]) (pre ++ rest) offset
  = Throw (RangeError "offset is out of bounds").
Proof.
  induction done as [|sig done IH]; intros last pre rest offset Hoff Hroom Hdone Hlast.
  - cbn [app write_signatures]. unfold signed64 in Hlast.
    destruct (signature last) as [bytes|]; [|done]. cbn [length] in Hroom.
    rewrite Buffer_set_overflow; [done|]. rewrite length_app. lia.
  - apply Forall_cons in Hdone as [Hsig Hdone]. cbn [app write_signatures].
    unfold signed64 in Hsig. destruct (signature sig) as [bytes|]; [|done].
    cbn [length] in Hroom.
    rewrite Buffer_set_app by (done || lia). cbn [mbind Run_bind].
    rewrite (app_assoc pre bytes).
    apply IH; [rewrite length_app; lia | rewrite length_drop; lia | done..].
Qed.

Lemma last_slot {A : Type} (l : list A) :
  l <> [] -> exists done last, l = done ++ [last].
Proof.
  induction l as [|x l _] using rev_ind; [done|]. intros _. by exists l, x.
Qed.

Context `{Web3}.

(** X6.  The check for a missing signature does not look at lengths: a
    slot whose signature is shorter than 64 bytes (an empty buffer
    included) passes, and its slot is filled up with zero bytes, whatever
    message web3.js compiles. *)
Theorem customSerializeTransaction_pads_short_signatures tx :
  Z.of_nat (length (signatures tx)) < 2097152 ->
  Forall signed_at_most64 (signatures tx) ->
  exists prefix,
    decodeLength prefix = Some (Z.of_nat (length (signatures tx)), length prefix)
    /\ customSerializeTransaction tx
       = (serializedMessage ← compileMessage_serialize tx;
          Ret (prefix ++ padded_block (signatures tx) ++ serializedMessage))
    /\ length (padded_block (signatures tx)) = (64 * length (signatures tx))%nat.
Proof.
  intros Hcount Hsigned.
  exists (varint encodeLength_rounds (Z.of_nat (length (signatures tx)))). split_and!.
  - apply (decodeLength_varint 4). change (2 ^ (7 * Z.of_nat 5)) with (2 ^ 35). lia.
  - apply customSerializeTransaction_compiled. intros message Hmessage.
    unfold customSerializeTransaction. rewrite Hmessage. cbn [mbind Run_bind].
    set (count := Z.of_nat (length (signatures tx))) in *.
    assert (0 <= count < 2097152) as Hc by lia.
    pose proof (getSignatureCountLength_varint count Hc) as Hlen.
    pose proof (getSignatureCountLength_range count) as Hrange.
    set (prefix := varint encodeLength_rounds count) in *.
    set (size := getSignatureCountLength count + count * 64 + Z.of_nat (length message)).
    assert (length (Buffer_alloc size) = Z.to_nat size) as Halloc by apply Buffer_alloc_length.
    rewrite encodeLength_fits by (fold prefix; lia).
    fold prefix. cbn [mbind Run_bind]. unfold Buffer_alloc. rewrite drop_replicate.
    rewrite write_signatures_padded; [|lia|lia|done].
    cbn [mbind Run_bind]. rewrite (app_assoc prefix).
    rewrite Buffer_set_app.
    + rewrite drop_replicate.
      replace (Z.to_nat size - length prefix - 64 * length (signatures tx) - length message)%nat
        with 0%nat by lia.
      cbn [replicate]. by rewrite app_nil_r, <- app_assoc.
    + rewrite length_app, padded_block_length by done. lia.
    + rewrite length_replicate. lia.
  - by apply padded_block_length.
Qed.

(** X7.  From 2^21 signatures on (and below 2^31) a fully signed
    transaction is never serialized: the prefix takes more bytes than were
    allocated for it, and a [set] throws a [RangeError], whatever the
    message that web3.js compiled. *)
Theorem customSerializeTransaction_too_many_signatures tx :
  2097152 <= Z.of_nat (length (signatures tx)) < 2^31 ->
  Forall signed64 (signatures tx) ->
  customSerializeTransaction tx
  = (_ ← compileMessage_serialize tx; Throw (RangeError "offset is out of bounds")).
Proof.
  intros Hcount Hsigned.
  apply customSerializeTransaction_compiled. intros message Hmessage.
  unfold customSerializeTransaction. rewrite Hmessage. cbn [mbind Run_bind].
  set (count := Z.of_nat (length (signatures tx))) in *.
  pose proof (varint_length count ltac:(lia)) as Hlen.
  rewrite !(decide_False (P := count < 128)), !(decide_False (P := count < 16384)),
    !(decide_False (P := count < 2097152)) in Hlen by lia.
  assert (4 <= Z.of_nat (length (varint encodeLength_rounds count)) <= 5) as Hlen'
    by (case_decide; lia).
  clear Hlen.
  assert (getSignatureCountLength count = 3) as ->.
  { unfold getSignatureCountLength. by rewrite !decide_False by lia. }
  set (prefix := varint encodeLength_rounds count) in *.
  set (size := 3 + count * 64 + Z.of_nat (length message)).
  assert (length (Buffer_alloc size) = Z.to_nat size) as Halloc by apply Buffer_alloc_length.
  rewrite encodeLength_fits by (fold prefix; lia).
  fold prefix. cbn [mbind Run_bind].
  set (rest := drop (length prefix) (Buffer_alloc size)).
  assert (length rest = (Z.to_nat size - length prefix)%nat) as Hrest
    by (subst rest; by rewrite length_drop, Halloc).
  destruct (decide (64 * length (signatures tx) <= length rest)%nat) as [Hfit|Hshort].
  - rewrite write_signatures_app; [|lia|done|done].
    cbn [mbind Run_bind]. apply Buffer_set_overflow.
    rewrite !length_app, signature_block_length, !length_drop by done. lia.
  - destruct (last_slot (signatures tx)) as (done & last & Hsplit).
    { intros Hnil. unfold count in Hcount. rewrite Hnil in Hcount. cbn in Hcount. lia. }
    assert (length (signatures tx) = S (length done)) as Hlength
      by (rewrite Hsplit, length_app; cbn [length]; lia).
    assert (count = Z.of_nat (S (length done))) as Hcount' by (unfold count; lia).
    rewrite Hsplit in Hsigned |- *.
    apply Forall_app in Hsigned as [Hdone Hlast]. apply Forall_cons in Hlast as [Hlast _].
    rewrite write_signatures_overflow; [done|lia| |done..]. lia.
Qed.

End SerializerEdges.

Lemma customSerializeTransaction_pads_short_signatures_witness :
  exists prefix,
    decodeLength prefix
    = Some (Z.of_nat (length (signatures MoreExamples.short_signed)), length prefix)
    /\ @customSerializeTransaction Examples.web3 MoreExamples.short_signed
       = (serializedMessage ← @compileMessage_serialize Examples.web3
                                MoreExamples.short_signed;
          Ret (prefix ++ padded_block (signatures MoreExamples.short_signed)
                 ++ serializedMessage))
    /\ length (padded_block (signatures MoreExamples.short_signed))
       = (64 * length (signatures MoreExamples.short_signed))%nat.
Proof.
  apply (@customSerializeTransaction_pads_short_signatures Examples.web3
           MoreExamples.short_signed).
  - vm_compute. reflexivity.
  - repeat constructor; unfold signed_at_most64; cbn; lia.
Defined.

Lemma customSerializeTransaction_too_many_signatures_witness :
  @customSerializeTransaction Examples.web3 Examples.oversigned
  = (_ ← @compileMessage_serialize Examples.web3 Examples.oversigned;
     Throw (RangeError "offset is out of bounds")).
Proof.
  apply (@customSerializeTransaction_too_many_signatures Examples.web3 Examples.oversigned).
  - unfold Examples.oversigned. cbn [signatures]. rewrite length_replicate. lia.
  - apply Forall_replicate. reflexivity.
Defined.

(** ** The generators *)

Lemma generateTransactions_single_witness :
  generateTransactions 65 Examples.payer Examples.payee
  = Ret [mkTransaction
           (replicate (Z.to_nat 65) (SystemProgram_transfer Examples.payer Examples.payee 10000))
           None []].
Proof. apply (generateTransactions_single 65 Examples.payer Examples.payee). lia. Defined.

Lemma Part001_generateTransactions_five_witness :
  Part001.generateTransactions 3 Examples.payer Examples.payee
  = Ret (replicate 5
           (mkTransaction
              (replicate (Z.to_nat 3) (SystemProgram_transfer Examples.payer Examples.payee 500000))
              None [])).
Proof. apply (Part001_generateTransactions_five 3 Examples.payer Examples.payee). lia. Defined.

Section GeneratorContents.
Context `{Web3}.

(** X10.  For a batch size of at least one, a blockhash from the endpoint
    and a signing and compilation by web3.js that succeed, the buffer
    [generateRawTransactions] returns is the count byte 1, the funding
    wallet's 64-byte signature of the message compiled from the [batchSize]
    transfers with that blockhash, and the message compiled from the signed
    transaction: 65 bytes more than the message.  The only call it makes is
    the blockhash request. *)
Theorem generateRawTransactions_buffer batchSize fundingWallet destinationWallet connection
    blockhash signData sig message :
  1 <= batchSize ->
  getLatestBlockhash connection = Ret blockhash ->
  compileMessage_serialize
    (single_transaction batchSize fundingWallet destinationWallet blockhash None)
  = Ret signData ->
  nacl_sign signData (secretKey fundingWallet) = Ret sig ->
  compileMessage_serialize
    (single_transaction batchSize fundingWallet destinationWallet blockhash (Some sig))
  = Ret message ->
  instructions
    (single_transaction batchSize fundingWallet destinationWallet blockhash (Some sig))
  = replicate (Z.to_nat batchSize)
      (SystemProgram_transfer (publicKey fundingWallet) destinationWallet 10000)
  /\ length sig = 64%nat
  /\ generateRawTransactions batchSize fundingWallet destinationWallet connection
     = (Ret [1 :: sig ++ message], [GetLatestBlockhash])
  /\ length (1 :: sig ++ message) = (65 + length message)%nat.
Proof.
  intros Hb Hblockhash HsignData Hsig Hmessage.
  pose proof (nacl_sign_length _ _ _ Hsig) as Hlength. split_and!.
  - apply transfer_instructions_replicate.
  - done.
  - rewrite generateRawTransactions_run by done.
    rewrite Hblockhash. cbn [mbind Run_bind]. rewrite HsignData. cbn [mbind Run_bind].
    rewrite Hsig. cbn [mbind Run_bind]. by rewrite Hmessage.
  - cbn [length]. rewrite length_app, Hlength. lia.
Qed.

End GeneratorContents.

Lemma generateRawTransactions_buffer_witness :
  instructions
    (single_transaction 65 Examples.wallet Examples.payee Examples.recent
       (Some (replicate 64 7)))
  = replicate (Z.to_nat 65)
      (SystemProgram_transfer (publicKey Examples.wallet) Examples.payee 10000)
  /\ length (replicate 64 7) = 64%nat
  /\ @generateRawTransactions Examples.web3 65 Examples.wallet Examples.payee
       Examples.accepting
     = (Ret [1 :: replicate 64 7 ++ [1; 0; 1; 65]], [GetLatestBlockhash])
  /\ length (1 :: replicate 64 7 ++ [1; 0; 1; 65]) = (65 + length [1; 0; 1; 65])%nat.
Proof.
  apply (@generateRawTransactions_buffer Examples.web3 65 Examples.wallet Examples.payee
           Examples.accepting Examples.recent [1; 0; 1; 65] (replicate 64 7) [1; 0; 1; 65]);
    [lia|reflexivity..].
Defined.

(** ** The senders in general *)

(** X11.  Whatever [retries >= 1] is, [sendRawTransactionWithRetry]
    submits exactly once, and its outcome is that of this one submission
    and its confirmation: the answers the endpoint would give to later
    submissions play no part. *)
Theorem sendRawTransactionWithRetry_never_retries connection rawTransaction retries :
  1 <= retries ->
  submissions (sendRawTransactionWithRetry connection rawTransaction retries).2 = 1%nat
  /\ (sendRawTransactionWithRetry connection rawTransaction retries).1
     = (signature ← sendRawTransaction connection rawTransaction 0;
        _ ← confirmTransaction connection signature;
        Ret signature).
Proof.
  intros Hretries. rewrite sendRawTransactionWithRetry_once by done. split.
  - apply try_send_submissions.
  - unfold try_send. by destruct (sendRawTransaction connection rawTransaction 0).
Qed.

Lemma sendRawTransactionWithRetry_never_retries_witness :
  submissions (sendRawTransactionWithRetry Examples.accepting_third [1; 2; 3] 5).2 = 1%nat
  /\ (sendRawTransactionWithRetry Examples.accepting_third [1; 2; 3] 5).1
     = (signature ← sendRawTransaction Examples.accepting_third [1; 2; 3] 0;
        _ ← confirmTransaction Examples.accepting_third signature;
        Ret signature).
Proof.
  apply (sendRawTransactionWithRetry_never_retries Examples.accepting_third [1; 2; 3] 5). lia.
Defined.

(** X12.  With [retries <= 0] neither sender contacts the endpoint: both
    reject at once with "Failed to send transaction after <retries>
    attempts". *)
Theorem senders_without_rounds connection rawTransaction transaction retries :
  retries <= 0 ->
  sendRawTransactionWithRetry connection rawTransaction retries
  = (Throw (Error ("Failed to send transaction after " +:+ pretty retries +:+ " attempts")),
     [])
  /\ sendTransactionWithRetry connection transaction retries
     = (Throw (Error ("Failed to send transaction after " +:+ pretty retries +:+ " attempts")),
        []).
Proof.
  intros Hretries. unfold sendRawTransactionWithRetry, sendTransactionWithRetry.
  cbn [retry_loop]. by rewrite !decide_False by lia.
Qed.

Lemma senders_without_rounds_witness :
  sendRawTransactionWithRetry Examples.accepting [1; 2; 3] 0
  = (Throw (Error ("Failed to send transaction after " +:+ pretty 0 +:+ " attempts")), [])
  /\ sendTransactionWithRetry Examples.accepting Examples.signed_twice 0
     = (Throw (Error ("Failed to send transaction after " +:+ pretty 0 +:+ " attempts")), []).
Proof.
  apply (senders_without_rounds Examples.accepting [1; 2; 3] Examples.signed_twice 0). lia.
Defined.

(** X13.  With [retries >= 1], [sendTransactionWithRetry] asks for a
    blockhash once.  When that request fails it submits nothing and rejects
    with the request's error; otherwise it submits the transaction once,
    with the new blockhash in place of its old one, and its outcome is that
    of this submission. *)
Theorem sendTransactionWithRetry_single_round connection transaction retries :
  1 <= retries ->
  (forall err, getLatestBlockhash connection = Throw err ->
     sendTransactionWithRetry connection transaction retries
     = (Throw err, [GetLatestBlockhash]))
  /\ (forall blockhash, getLatestBlockhash connection = Ret blockhash ->
        sendTransactionWithRetry connection transaction retries
        = (sendAndConfirmTransaction connection
             (mkTransaction (instructions transaction) (Some blockhash)
                (signatures transaction)) 0,
           [GetLatestBlockhash;
            SendAndConfirmTransaction
              (mkTransaction (instructions transaction) (Some blockhash)
                 (signatures transaction))]))
  /\ (submissions (sendTransactionWithRetry connection transaction retries).2 <= 1)%nat.
Proof.
  intros Hretries. rewrite sendTransactionWithRetry_once by done.
  unfold try_send_and_confirm. split_and!.
  - by intros err ->.
  - by intros blockhash ->.
  - destruct (getLatestBlockhash connection); cbn [snd]; unfold submissions;
      [change (1 <= 1)%nat | change (0 <= 1)%nat ..]; lia.
Qed.

Lemma sendTransactionWithRetry_single_round_witness :
  (forall err, getLatestBlockhash MoreExamples.no_blockhash = Throw err ->
     sendTransactionWithRetry MoreExamples.no_blockhash Examples.signed_twice 5
     = (Throw err, [GetLatestBlockhash]))
  /\ (forall blockhash, getLatestBlockhash MoreExamples.no_blockhash = Ret blockhash ->
        sendTransactionWithRetry MoreExamples.no_blockhash Examples.signed_twice 5
        = (sendAndConfirmTransaction MoreExamples.no_blockhash
             (mkTransaction (instructions Examples.signed_twice) (Some blockhash)
                (signatures Examples.signed_twice)) 0,
           [GetLatestBlockhash;
            SendAndConfirmTransaction
              (mkTransaction (instructions Examples.signed_twice) (Some blockhash)
                 (signatures Examples.signed_twice))]))
  /\ (submissions (sendTransactionWithRetry MoreExamples.no_blockhash
                     Examples.signed_twice 5).2 <= 1)%nat.
Proof.
  apply (sendTransactionWithRetry_single_round MoreExamples.no_blockhash
           Examples.signed_twice 5).
  lia.
Defined.

(** ** The dispatchers in general *)

Section DispatcherEdges.

Lemma executeTransactions_mapM connection transactionList :
  executeTransactions connection transactionList
  = match mapM (send_transaction_outcome connection) transactionList with
    | Some results => Ret results
    | None => NoReturn
    end.
Proof.
  unfold executeTransactions, Promise_allSettled, stagger.
  by rewrite (settled_staggered _ (fun i => Z.of_nat i * TX_INTERVAL)).
Qed.

Lemma send_outcome_Some connection rawTransaction result :
  send_outcome connection rawTransaction = Some result
  <-> exists signature,
        (sendRawTransactionWithRetry connection rawTransaction default_retries).1
        = Ret signature
        /\ result = fulfilled signature.
Proof.
  unfold send_outcome.
  destruct (sendRawTransactionWithRetry _ _ _).1 as [signature| |]; split;
    [ intros [= <-]; eauto | intros (s & [= <-] & ->); done
    | done | intros (s & [=] & _) | done | intros (s & [=] & _) ].
Qed.

(** The dispatch of one message. *)
Lemma executeRawTransactions_single connection rawTxBuffer :
  executeRawTransactions connection [rawTxBuffer]
  = match (signature ← sendRawTransaction connection rawTxBuffer 0;
           _ ← confirmTransaction connection signature;
           Ret signature) with
    | Ret signature => Ret [fulfilled signature]
    | _ => NoReturn
    end.
Proof.
  rewrite executeRawTransactions_mapM.
  change (mapM ?f [?x]) with (y ← f x; k ← mapM f []; mret (y :: k)).
  unfold send_outcome. rewrite sendRawTransactionWithRetry_once by (unfold default_retries; lia).
  unfold try_send.
  destruct (sendRawTransaction connection rawTxBuffer 0) as [signature| |]; [|done..].
  cbn [fst mbind Run_bind]. by destruct (confirmTransaction connection signature).
Qed.

End DispatcherEdges.

(** X14.  [executeRawTransactions] returns exactly when every send
    fulfils, and then with one [fulfilled] outcome per message, in the order
    of the messages, each carrying the signature of its message. *)
Theorem executeRawTransactions_returns_iff connection rawTransactionList results :
  executeRawTransactions connection rawTransactionList = Ret results
  <-> Forall2 (fun rawTransaction result =>
                 exists signature,
                   (sendRawTransactionWithRetry connection rawTransaction
                      default_retries).1 = Ret signature
                   /\ result = fulfilled signature)
        rawTransactionList results.
Proof.
  rewrite executeRawTransactions_mapM. split.
  - destruct (mapM (send_outcome connection) rawTransactionList) as [results'|] eqn:Hm;
      [|done].
    intros [= <-]. apply mapM_Some in Hm.
    eapply Forall2_impl; [exact Hm|]. intros rawTransaction result.
    apply send_outcome_Some.
  - intros Hall. rewrite (proj2 (mapM_Some _ _ results)); [done|].
    eapply Forall2_impl; [exact Hall|]. intros rawTransaction result.
    apply send_outcome_Some.
Qed.

(** X15.  [executeRawTransactions] never rejects, and it does not return
    as soon as one send of the list rejects or hangs: the outcomes of the
    other sends are then lost with it. *)
Theorem executeRawTransactions_all_or_nothing connection rawTransactionList :
  (forall err, executeRawTransactions connection rawTransactionList <> Throw err)
  /\ (executeRawTransactions connection rawTransactionList = NoReturn
      <-> Exists (fun rawTransaction =>
                    forall signature,
                      (sendRawTransactionWithRetry connection rawTransaction
                         default_retries).1 <> Ret signature)
            rawTransactionList).
Proof.
  rewrite executeRawTransactions_mapM. split.
  - intros err. by destruct (mapM _ _).
  - assert (forall rawTransaction,
              send_outcome connection rawTransaction = None
              <-> forall signature,
                    (sendRawTransactionWithRetry connection rawTransaction
                       default_retries).1 <> Ret signature) as Hnone.
    { intros rawTransaction. unfold send_outcome.
      destruct (sendRawTransactionWithRetry _ _ _).1 as [signature| |]; split; try done.
      intros Hno. by destruct (Hno signature). }
    split.
    + destruct (mapM (send_outcome connection) rawTransactionList) eqn:Hm; [done|].
      intros _. apply mapM_None in Hm.
      eapply Exists_impl; [exact Hm|]. intros rawTransaction. apply Hnone.
    + intros Hex. rewrite (proj2 (mapM_None _ _)); [done|].
      eapply Exists_impl; [exact Hex|]. intros rawTransaction. apply Hnone.
Qed.

(** X16.  The older [executeTransactions] behaves alike: it returns
    exactly when every [sendTransactionWithRetry] fulfils, with one
    [fulfilled] outcome per transaction in order, and it never rejects. *)
Theorem executeTransactions_returns_iff connection transactionList results :
  (executeTransactions connection transactionList = Ret results
   <-> Forall2 (fun transaction result =>
                  exists signature,
                    (sendTransactionWithRetry connection transaction default_retries).1
                    = Ret signature
                    /\ result = fulfilled signature)
         transactionList results)
  /\ (forall err, executeTransactions connection transactionList <> Throw err).
Proof.
  rewrite executeTransactions_mapM.
  assert (forall transaction result,
            send_transaction_outcome connection transaction = Some result
            <-> exists signature,
                  (sendTransactionWithRetry connection transaction default_retries).1
                  = Ret signature
                  /\ result = fulfilled signature) as Hsome.
  { intros transaction result. unfold send_transaction_outcome.
    destruct (sendTransactionWithRetry _ _ _).1 as [signature| |]; split;
      [ intros [= <-]; eauto | intros (s & [= <-] & ->); done
      | done | intros (s & [=] & _) | done | intros (s & [=] & _) ]. }
  split; [split|].
  - destruct (mapM (send_transaction_outcome connection) transactionList) as [results'|]
      eqn:Hm; [|done].
    intros [= <-]. apply mapM_Some in Hm.
    eapply Forall2_impl; [exact Hm|]. intros transaction result. apply Hsome.
  - intros Hall. rewrite (proj2 (mapM_Some _ _ results)); [done|].
    eapply Forall2_impl; [exact Hall|]. intros transaction result. apply Hsome.
  - intros err. by destruct (mapM _ _).
Qed.

(** ** From the generator to the dispatcher *)

Section Pipeline.
Context `{Web3}.

(** X18.  With a batch size of at least one, whenever
    [generateRawTransactions] returns, dispatching what it returned sends
    one message: the call returns the one signature when the endpoint
    accepts and confirms the first submission, and it does not return
    otherwise. *)
Theorem generate_then_execute batchSize fundingWallet destinationWallet connection
    rawTransactionList :
  1 <= batchSize ->
  (generateRawTransactions batchSize fundingWallet destinationWallet connection).1
  = Ret rawTransactionList ->
  exists rawTxBuffer,
    rawTransactionList = [rawTxBuffer]
    /\ executeRawTransactions connection rawTransactionList
       = match (signature ← sendRawTransaction connection rawTxBuffer 0;
                _ ← confirmTransaction connection signature;
                Ret signature) with
         | Ret signature => Ret [fulfilled signature]
         | _ => NoReturn
         end.
Proof.
  intros Hb Hreturns.
  destruct (generateRawTransactions_returns _ _ _ _ _ Hb Hreturns)
    as (blockhash & signData & sig & message & _ & _ & _ & _ & _ & ->).
  eexists. split; [done|].
  apply executeRawTransactions_single.
Qed.

End Pipeline.

Lemma generate_then_execute_witness :
  exists rawTxBuffer,
    [1 :: replicate 64 7 ++ [1; 0; 1; 65]] = [rawTxBuffer]
    /\ executeRawTransactions Examples.always_rejecting
         [1 :: replicate 64 7 ++ [1; 0; 1; 65]]
       = match (signature ← sendRawTransaction Examples.always_rejecting rawTxBuffer 0;
                _ ← confirmTransaction Examples.always_rejecting signature;
                Ret signature) with
         | Ret signature => Ret [fulfilled signature]
         | _ => NoReturn
         end.
Proof.
  apply (@generate_then_execute Examples.web3 65 Examples.wallet Examples.payee
           Examples.always_rejecting [1 :: replicate 64 7 ++ [1; 0; 1; 65]]);
    [lia|reflexivity].
Defined.

(** ** Loading the keypair and [main] *)

Section Startup.
Context `{Web3} `{Host}.


Lemma main_started config connection fundingPrivateKey destinationWallet :
  started config connection fundingPrivateKey destinationWallet ->
  main config
  = (rawTransactionList ←
       (generateRawTransactions (IX_BATCH_SIZE config) fundingPrivateKey destinationWallet
          connection).1;
     _ ← executeRawTransactions connection rawTransactionList;
     Ret tt).
Proof.
  intros (Hpath & Hkey & Hconnection & Hload & Hpublic). unfold main.
  rewrite !decide_False by done. by rewrite Hconnection, Hload, Hpublic.
Qed.

(** X20.  With a complete configuration, a batch size of at least one and
    start-up steps that succeed, whenever [generateRawTransactions] returns
    it returns one transaction, and [main] finishes exactly when the
    endpoint accepts and confirms the first submission of it.  When the
    endpoint rejects it, the promise of [main] is settled neither way:
    [main] does not return, and it does not throw the error of the send
    either. *)
Theorem main_finishes_iff_accepted config connection fundingPrivateKey destinationWallet
    rawTransactionList :
  started config connection fundingPrivateKey destinationWallet ->
  1 <= IX_BATCH_SIZE config ->
  (generateRawTransactions (IX_BATCH_SIZE config) fundingPrivateKey destinationWallet
     connection).1 = Ret rawTransactionList ->
  exists rawTxBuffer,
    rawTransactionList = [rawTxBuffer]
    /\ main config
       = match (signature ← sendRawTransaction connection rawTxBuffer 0;
                _ ← confirmTransaction connection signature;
                Ret signature) with
         | Ret _ => Ret tt
         | _ => NoReturn
         end.
Proof.
  intros Hstarted Hb Hreturns. rewrite (main_started _ _ _ _ Hstarted), Hreturns.
  destruct (generateRawTransactions_returns _ _ _ _ _ Hb Hreturns)
    as (blockhash & signData & sig & message & _ & _ & _ & _ & _ & ->).
  eexists. split; [done|]. cbn [mbind Run_bind].
  rewrite executeRawTransactions_single.
  destruct (sendRawTransaction connection _ 0) as [signature| |]; [|done..].
  cbn [mbind Run_bind]. by destruct (confirmTransaction connection signature).
Qed.

Lemma generateRawTransactions_nonpositive batchSize fundingWallet destinationWallet
    connection :
  batchSize <= 0 ->
  generateRawTransactions batchSize fundingWallet destinationWallet connection
  = (_ ← getLatestBlockhash connection; Ret [], [GetLatestBlockhash]).
Proof.
  intros Hle. unfold generateRawTransactions.
  rewrite transfer_instructions_replicate.
  replace (Z.to_nat batchSize) with 0%nat by lia. cbn [replicate length Z.of_nat].
  rewrite Math_ceil_div_zero.
  destruct (getLatestBlockhash connection); cbn [mbind Run_bind]; [|done..].
  by rewrite for_loop_run_none.
Qed.

(** X21.  With a batch size of zero or less, [main] does not complain:
    after the blockhash request it has no transaction to send and finishes
    normally. *)
Theorem main_sends_nothing config connection fundingPrivateKey destinationWallet blockhash :
  started config connection fundingPrivateKey destinationWallet ->
  IX_BATCH_SIZE config <= 0 ->
  getLatestBlockhash connection = Ret blockhash ->
  generateRawTransactions (IX_BATCH_SIZE config) fundingPrivateKey destinationWallet connection
  = (Ret [], [GetLatestBlockhash])
  /\ main config = Ret tt.
Proof.
  intros Hstarted Hb Hblockhash. rewrite (main_started _ _ _ _ Hstarted).
  rewrite generateRawTransactions_nonpositive, Hblockhash by done. by split.
Qed.

(** X22.  With a complete configuration, a batch size of at least one and
    start-up steps that succeed, an error of [tx.sign] (a blockhash that is
    no base-58 text, for instance) ends [generateRawTransactions] after the
    blockhash request and ends [main]: both throw that error, and nothing
    is submitted. *)
Theorem main_stops_when_signing_fails config connection fundingPrivateKey destinationWallet
    blockhash err :
  started config connection fundingPrivateKey destinationWallet ->
  1 <= IX_BATCH_SIZE config ->
  getLatestBlockhash connection = Ret blockhash ->
  tx_sign
    (single_transaction (IX_BATCH_SIZE config) fundingPrivateKey destinationWallet blockhash
       None)
    fundingPrivateKey = Throw err ->
  generateRawTransactions (IX_BATCH_SIZE config) fundingPrivateKey destinationWallet connection
  = (Throw err, [GetLatestBlockhash])
  /\ submissions
       (generateRawTransactions (IX_BATCH_SIZE config) fundingPrivateKey destinationWallet
          connection).2 = 0%nat
  /\ main config = Throw err.
Proof.
  intros Hstarted Hb Hblockhash Hsign. rewrite (main_started _ _ _ _ Hstarted).
  rewrite (generateRawTransactions_sign_fails _ _ _ _ blockhash err) by done.
  by split_and!.
Qed.

End Startup.


Lemma main_finishes_iff_accepted_witness :
  exists rawTxBuffer,
    [1 :: replicate 64 7 ++ [1; 0; 1; 65]] = [rawTxBuffer]
    /\ @main Examples.web3 MoreExamples.host MoreExamples.config
       = match (signature ← sendRawTransaction Examples.accepting rawTxBuffer 0;
                _ ← confirmTransaction Examples.accepting signature;
                Ret signature) with
         | Ret _ => Ret tt
         | _ => NoReturn
         end.
Proof.
  apply (@main_finishes_iff_accepted Examples.web3 MoreExamples.host
           MoreExamples.config Examples.accepting Examples.wallet Examples.payee
           [1 :: replicate 64 7 ++ [1; 0; 1; 65]]).
  - split_and!; done.
  - cbn. lia.
  - reflexivity.
Defined.

Lemma main_sends_nothing_witness :
  @generateRawTransactions Examples.web3 (IX_BATCH_SIZE MoreExamples.idle_config)
    Examples.wallet Examples.payee Examples.accepting
  = (Ret [], [GetLatestBlockhash])
  /\ @main Examples.web3 MoreExamples.host MoreExamples.idle_config = Ret tt.
Proof.
  apply (@main_sends_nothing Examples.web3 MoreExamples.host MoreExamples.idle_config
           Examples.accepting Examples.wallet Examples.payee Examples.recent).
  - split_and!; done.
  - cbn. lia.
  - reflexivity.
Defined.

Lemma main_stops_when_signing_fails_witness :
  @generateRawTransactions Examples.web3 (IX_BATCH_SIZE MoreExamples.config) Examples.wallet
    Examples.payee MoreExamples.bad_blockhash
  = (Throw (Error "Non-base58 character"), [GetLatestBlockhash])
  /\ submissions
       (@generateRawTransactions Examples.web3 (IX_BATCH_SIZE MoreExamples.config)
          Examples.wallet Examples.payee MoreExamples.bad_blockhash).2 = 0%nat
  /\ @main Examples.web3 MoreExamples.bad_blockhash_host MoreExamples.config
     = Throw (Error "Non-base58 character").
Proof.
  apply (@main_stops_when_signing_fails Examples.web3 MoreExamples.bad_blockhash_host
           MoreExamples.config MoreExamples.bad_blockhash Examples.wallet Examples.payee
           "blockhash" (Error "Non-base58 character")).
  - split_and!; done.
  - cbn. lia.
  - reflexivity.
  - reflexivity.
Defined.
